(** * Infinite-horizon hypertension MDP: transition model, policy solver and
      guideline engines

    A shallow embedding of the Python sources
    [sbp_reductions_drugtype.py], [post_treatment_risk.py],
    [transition_probabilities_infinite.py], [policy_evaluation_infinite.py],
    [aha_2017_guideline_infinite.py] and [risk_based_policy_infinite.py].

    Numbers.  The sources compute with IEEE doubles.  Here every finite number
    is an exact rational ([Q]); rounding is not modelled.  A cell that may hold
    NaN is an [option]: [None] is NaN, and every comparison with NaN is false,
    as in Python.  NumPy arrays that are only read are index functions; arrays
    that are written are index functions updated at one index. *)

From Stdlib Require Import QArith Qabs Qpower Lqa List Bool Arith Lia String.
From Stdlib Require Import Permutation.
Import ListNotations.
Open Scope Q_scope.

(** ** Comparisons and small numeric helpers *)

Module Num.

(** [a < b], [a >= b] and [a > b] on finite numbers. *)
Definition ltb (a b : Q) : bool := negb (Qle_bool b a).
Definition geb (a b : Q) : bool := Qle_bool b a.
Definition gtb (a b : Q) : bool := negb (Qle_bool a b).

(** Python's builtin [min(a, b)]: [b] when [b < a], else [a]. *)
Definition py_min (a b : Q) : Q := if ltb b a then b else a.

(** The same comparisons on cells that may hold NaN. *)
Definition oltb (a b : option Q) : bool :=
  match a, b with Some x, Some y => ltb x y | _, _ => false end.
Definition ogeb (a b : option Q) : bool :=
  match a, b with Some x, Some y => geb x y | _, _ => false end.

(** [a - b] where either side may be NaN. *)
Definition osub (a b : option Q) : option Q :=
  match a, b with Some x, Some y => Some (x - y) | _, _ => None end.

(** Sum of [f 0 .. f (n-1)]. *)
Definition Qsum (f : nat -> Q) (n : nat) : Q :=
  fold_right (fun i acc => f i + acc) 0 (seq 0 n).

Lemma ltb_lt a b : ltb a b = true <-> a < b.
Proof.
  unfold ltb. rewrite negb_true_iff, <- not_true_iff_false, Qle_bool_iff.
  split; intro H; lra.
Qed.

Lemma ltb_ge a b : ltb a b = false <-> b <= a.
Proof.
  unfold ltb. rewrite negb_false_iff, Qle_bool_iff. tauto.
Qed.

Lemma geb_ge a b : geb a b = true <-> b <= a.
Proof. unfold geb. apply Qle_bool_iff. Qed.

Lemma geb_lt a b : geb a b = false <-> a < b.
Proof.
  unfold geb. rewrite <- not_true_iff_false, Qle_bool_iff.
  split; intro H; lra.
Qed.

Lemma gtb_gt a b : gtb a b = true <-> b < a.
Proof.
  unfold gtb. rewrite negb_true_iff, <- not_true_iff_false, Qle_bool_iff.
  split; intro H; lra.
Qed.

Lemma gtb_le a b : gtb a b = false <-> a <= b.
Proof.
  unfold gtb. rewrite negb_false_iff, Qle_bool_iff. tauto.
Qed.

Lemma py_min_le_l a b : py_min a b <= a.
Proof.
  unfold py_min. destruct (ltb b a) eqn:E.
  - apply ltb_lt in E. lra.
  - lra.
Qed.


Definition sum_over (f : nat -> Q) (l : list nat) : Q :=
  fold_right (fun i acc => f i + acc) 0 l.

Lemma Qsum_sum_over f n : Qsum f n = sum_over f (seq 0 n).
Proof. reflexivity. Qed.






End Num.

(** ** Dose-response model ([sbp_reductions_drugtype.py]) *)

Module DoseResponse.

Open Scope string_scope.

(** Per-class response of SBP to one standard dose. *)
Definition aceinhibitors (pretreatment : Q) : Q := (85#10) + (1#10) * (pretreatment - 154).
Definition calciumcb (pretreatment : Q) : Q := (88#10) + (1#10) * (pretreatment - 154).
Definition thiazides (pretreatment : Q) : Q := (88#10) + (1#10) * (pretreatment - 154).
Definition betablock (pretreatment : Q) : Q := (92#10) + (1#10) * (pretreatment - 154).
Definition arb (pretreatment : Q) : Q := (103#10) + (1#10) * (pretreatment - 154).

(** An entry of [alldrugs]: a plain string, or a sequence of drug names
    (a list, or a tuple that the source turns into a list). *)
Inductive drugcomb : Type :=
  | DrugStr (s : string)
  | DrugSeq (l : list string).

(** [str.count(sub)]: non-overlapping occurrences, scanned left to right. *)
Fixpoint str_count_from (fuel : nat) (sub s : string) : nat :=
  match fuel with
  | O => O
  | S fuel' =>
      if String.prefix sub s
      then S (str_count_from fuel' sub
                (String.substring (String.length sub)
                   (String.length s - String.length sub) s))
      else match s with
           | EmptyString => O
           | String _ t => str_count_from fuel' sub t
           end
  end.

Definition str_count (sub s : string) : nat :=
  str_count_from (S (String.length s)) sub s.

(** [list.count(x)]. *)
Definition seq_count (x : string) (l : list string) : nat :=
  List.length (filter (String.eqb x) l).

Definition count (x : string) (c : drugcomb) : nat :=
  match c with
  | DrugStr s => str_count x s
  | DrugSeq l => seq_count x l
  end.

(** [for r in range(n): sbp_reduc = sbp_reduc + resp(pretreatment - sbp_reduc)] *)
Fixpoint doses (resp : Q -> Q) (n : nat) (pretreatment sbp_reduc : Q) : Q :=
  match n with
  | O => sbp_reduc
  | S n' => doses resp n' pretreatment (sbp_reduc + resp (pretreatment - sbp_reduc))
  end.

(** [alldrugs[trt]]; the callers only index inside the list. *)
Definition drug_at (alldrugs : list drugcomb) (trt : nat) : drugcomb :=
  nth trt alldrugs (DrugSeq []).

Definition sbp_reductions (trt : nat) (pretreatment : Q) (alldrugs : list drugcomb) : Q :=
  let sbp_reduc := 0 in
  let drugcomb := drug_at alldrugs trt in
  let th := count "TH" drugcomb in
  let bb := count "BB" drugcomb in
  let ace := count "ACE" drugcomb in
  let a2ra := count "ARB" drugcomb in
  let ccb := count "CCB" drugcomb in
  let sbp_reduc := doses thiazides th pretreatment sbp_reduc in
  let sbp_reduc := doses betablock bb pretreatment sbp_reduc in
  let sbp_reduc := doses aceinhibitors ace pretreatment sbp_reduc in
  let sbp_reduc := doses arb a2ra pretreatment sbp_reduc in
  let sbp_reduc := doses calciumcb ccb pretreatment sbp_reduc in
  sbp_reduc.

(** Response to one standard generic dose. *)
Definition SBPreduc (pretreatment : Q) : Q := (91#10) + (1#10) * (pretreatment - 154).

(** [sbp_reductions_generic]: NaN for a level other than 0..5.  The
    guideline engines pass the level as a number they compute with, so it is
    an integer here. *)
Definition sbp_reductions_generic (trt : Z) (pretreatment : Q) : option Q :=
  let red_1std := SBPreduc pretreatment in
  let red_2std := red_1std + SBPreduc (pretreatment - red_1std) in
  let red_3std := red_2std + SBPreduc (pretreatment - red_2std) in
  let red_4std := red_3std + SBPreduc (pretreatment - red_3std) in
  let red_5std := red_4std + SBPreduc (pretreatment - red_4std) in
  match trt with
  | 0%Z => Some 0
  | 1%Z => Some red_1std
  | 2%Z => Some red_2std
  | 3%Z => Some red_3std
  | 4%Z => Some red_4std
  | 5%Z => Some red_5std
  | _ => None
  end.

End DoseResponse.

(** ** Post-treatment risk ([post_treatment_risk.py]) *)

Module Risk.

(** [rpow b x] stands for the floating-point power [b ** x]; its values are
    not rational in general, so it is a parameter of the model. *)
Definition new_risk (rpow : Q -> Q -> Q)
    (sbpreduc : Q) (riskslope : nat -> Q) (pretrtrisk : Q) (event : nat) : Q :=
  let RR := rpow (riskslope event) (sbpreduc / 20) in
  let risk := RR * pretrtrisk in
  risk.

(** An instance of the power for concrete runs: exact where the exponent is
    an integer ([b ** n], with [b] non-zero or [n] non-negative), which is all
    the concrete runs below use; any other exponent is sent to 1. *)
Definition pow_int_exponent (b x : Q) : Q :=
  let x' := Qred x in
  if Pos.eqb (Qden x') 1 then Qpower b (Qnum x') else 1.


End Risk.

(** ** Transition model ([transition_probabilities_infinite.py]) *)

Module TP.

Import Num DoseResponse Risk.

(** The two arrays [TP_infinite] returns.  [feasible] starts as NaN
    everywhere, [ptrans] as zero everywhere. *)
Record arrays : Type := mk_arrays {
  feasible : nat -> nat -> option Q;
  ptrans : nat -> nat -> nat -> Q
}.

Definition init : arrays :=
  {| feasible := fun _ _ => None; ptrans := fun _ _ _ => 0 |}.

(** [a[h, j] = v] and [a[h, s, j] = v]. *)
Definition upd2 {A : Type} (a : nat -> nat -> A) (h j : nat) (v : A) : nat -> nat -> A :=
  fun h' j' => if (h' =? h)%nat && (j' =? j)%nat then v else a h' j'.

Definition upd3 (a : nat -> nat -> nat -> Q) (h s j : nat) (v : Q) : nat -> nat -> nat -> Q :=
  fun h' s' j' =>
    if (h' =? h)%nat && (s' =? s)%nat && (j' =? j)%nat then v else a h' s' j'.

(** NumPy's [max], which propagates NaN, over the cells [f 0 .. f (n-1)]. *)
Definition nan_max (a b : option Q) : option Q :=
  match a, b with
  | Some x, Some y => Some (if ltb x y then y else x)
  | _, _ => None
  end.

Definition row_max (f : nat -> option Q) (n : nat) : option Q :=
  fold_left nan_max (map f (seq 1 (n - 1))) (f 0%nat).

Definition is_zero (m : option Q) : bool :=
  match m with Some x => Qeq_bool x 0 | None => false end.

Definition dead (h : nat) : bool :=
  (h =? 6)%nat || (h =? 7)%nat || (h =? 8)%nat || (h =? 9)%nat.

Definition alternate (h : nat) : nat :=
  if (h =? 3)%nat then 3%nat
  else if (h =? 4)%nat || (h =? 1)%nat then 1%nat
  else if (h =? 5)%nat || (h =? 2)%nat then 2%nat
  else 0%nat.

Section TP_infinite.

(** [rpow] is the power used by [new_risk].  [dbp_reductions] comes from
    [dbp_reductions_drugtype.py], which is not among the sources: it is a
    parameter, and nothing is assumed about it. *)
Variable rpow : Q -> Q -> Q.
Variable dbp_reductions : nat -> Q -> list drugcomb -> Q.

(** Inputs.  [numhealth] is [periodrisk.shape[0]]; the event dimension
    [periodrisk.shape[1]] is 2 (the source reads events 0 and 1).  The source
    writes to-states 4..9, so it only runs to its end with at least 10
    states; the results below assume that many. *)
Variable periodrisk : nat -> nat -> Q.
Variable numhealth : nat.
Variables chddeath strokedeath alldeath : Q.
Variable riskslope : nat -> Q.
Variables pretrtsbp pretrtdbp : nat -> Q.
Variables sbpmin dbpmin sbpmax dbpmax : Q.
Variable alldrugs : list drugcomb.

Definition numtrt : nat := List.length alldrugs.

(** [sbpreduc[h, j]] and [dbpreduc[h, j]] as the loop body sets them. *)
Definition sbpreduc (h j : nat) : Q :=
  if (j =? 0)%nat then 0 else sbp_reductions j (pretrtsbp h) alldrugs.

Definition dbpreduc (h j : nat) : Q :=
  if (j =? 0)%nat then 0 else dbp_reductions j (pretrtdbp h) alldrugs.

(** The value written to [feasible[h, j]] by the bound checks. *)
Definition mark_feasible (h j : nat) : Q :=
  if (j =? 0)%nat then
    if gtb (pretrtsbp h) sbpmax || gtb (pretrtdbp h) dbpmax then 0 else 1
  else
    let newsbp := pretrtsbp h - sbpreduc h j in
    let newdbp := pretrtdbp h - dbpreduc h j in
    if (ltb newsbp sbpmin || ltb (pretrtsbp h) 0) || (ltb newdbp dbpmin || ltb (dbpreduc h j) 0)
    then 0 else 1.

(** [risk[h, k, j]]. *)
Definition risk (h k j : nat) : Q :=
  new_risk rpow (sbpreduc h j) riskslope (periodrisk h k) k.

(** The body of [while quits == 0]: it always leaves in its first pass. *)
Definition allocate (pt : nat -> nat -> nat -> Q) (h j : nat) : nat -> nat -> nat -> Q :=
  let pt := upd3 pt h 8 j (py_min 1 (strokedeath * risk h 1 j)) in
  let cumulprob := pt h 8%nat j in
  let pt := upd3 pt h 7 j (py_min 1 (chddeath * risk h 0 j)) in
  if geb (cumulprob + pt h 7%nat j) 1 then upd3 pt h 7 j (1 - cumulprob) else
  let cumulprob := cumulprob + pt h 7%nat j in
  let pt := upd3 pt h 6 j (py_min 1 alldeath) in
  if geb (cumulprob + pt h 6%nat j) 1 then upd3 pt h 6 j (1 - cumulprob) else
  let cumulprob := cumulprob + pt h 6%nat j in
  let pt := upd3 pt h 5 j (py_min 1 ((1 - strokedeath) * risk h 1 j)) in
  if geb (cumulprob + pt h 5%nat j) 1 then upd3 pt h 5 j (1 - cumulprob) else
  let cumulprob := cumulprob + pt h 5%nat j in
  let pt := upd3 pt h 4 j (py_min 1 ((1 - chddeath) * risk h 0 j)) in
  if geb (cumulprob + pt h 4%nat j) 1 then upd3 pt h 4 j (1 - cumulprob) else
  let cumulprob := cumulprob + pt h 4%nat j in
  upd3 pt h (alternate h) j (1 - cumulprob).

(** One pass of the inner loop body, for treatment [j] and state [h]. *)
Definition step (j : nat) (st : arrays) (h : nat) : arrays :=
  {| feasible := upd2 (feasible st) h j (Some (mark_feasible h j));
     ptrans := if dead h then upd3 (ptrans st) h 9 j 1
               else allocate (ptrans st) h j |}.

(** [for h in range(numhealth)]. *)
Definition sweep (j : nat) (st : arrays) : arrays :=
  fold_left (step j) (seq 0 numhealth) st.

(** The fallback as the source has it: inside [for j], after
    [for h] has ended, so [h] is the last state, [numhealth - 1]. *)
Definition fallback (st : arrays) : arrays :=
  let h := (numhealth - 1)%nat in
  if is_zero (row_max (feasible st h) numtrt)
  then {| feasible := upd2 (feasible st) h 0 (Some 1); ptrans := ptrans st |}
  else st.

Definition treatment (st : arrays) (j : nat) : arrays := fallback (sweep j st).

(** [for j in range(numtrt)], then [return ptrans, feasible]. *)
Definition TP_infinite : arrays := fold_left treatment (seq 0 numtrt) init.

(** Row [h] under action [j], as one pass of the body on fresh arrays
    writes it. *)
Definition trans_row (h j s : nat) : Q := ptrans (step j init h) h s j.

(** *** Array updates *)

Lemma upd3_same pt h s j v : upd3 pt h s j v h s j = v.
Proof. unfold upd3. now rewrite !Nat.eqb_refl. Qed.

Lemma upd3_row pt h s0 j v s :
  upd3 pt h s0 j v h s j = if (s =? s0)%nat then v else pt h s j.
Proof. unfold upd3. rewrite !Nat.eqb_refl. cbn. now rewrite andb_true_r. Qed.

Lemma upd3_other pt h s0 j v h' s j' :
  h' <> h \/ j' <> j -> upd3 pt h s0 j v h' s j' = pt h' s j'.
Proof.
  intros [H|H]; unfold upd3; apply Nat.eqb_neq in H; rewrite H; cbn.
  - reflexivity.
  - now rewrite andb_false_r.
Qed.

Lemma upd2_same {A} (a : nat -> nat -> A) h j v : upd2 a h j v h j = v.
Proof. unfold upd2. now rewrite !Nat.eqb_refl. Qed.

Lemma upd2_other {A} (a : nat -> nat -> A) h j v h' j' :
  h' <> h \/ j' <> j -> upd2 a h j v h' j' = a h' j'.
Proof.
  intros [H|H]; unfold upd2; apply Nat.eqb_neq in H; rewrite H; cbn.
  - reflexivity.
  - now rewrite andb_false_r.
Qed.

(** *** A loop that reaches one index exactly once *)

Section FoldAt.

Variables (St K : Type) (F : St -> K -> St) (k0 : K).
Variables (Pre Post : St -> Prop).
Hypothesis pre_frame : forall st k, k <> k0 -> Pre st -> Pre (F st k).
Hypothesis post_frame : forall st k, k <> k0 -> Post st -> Post (F st k).
Hypothesis hit : forall st, Pre st -> Post (F st k0).

Lemma fold_left_miss l st : ~ In k0 l -> Post st -> Post (fold_left F l st).
Proof.
  revert st. induction l as [|a l IH]; intros st Hin Hp; cbn; [exact Hp|].
  apply IH.
  - intro H. apply Hin. now right.
  - apply post_frame; [|exact Hp]. intro E. apply Hin. now left.
Qed.

Lemma fold_left_at l st : NoDup l -> In k0 l -> Pre st -> Post (fold_left F l st).
Proof.
  revert st. induction l as [|a l IH]; intros st Hnd Hin Hp; [contradiction|].
  inversion Hnd as [|x l' Hnotin Hnd']; subst. cbn.
  destruct Hin as [E|Hin].
  - subst a. apply fold_left_miss; [exact Hnotin|]. now apply hit.
  - apply IH; [exact Hnd'|exact Hin|].
    apply pre_frame; [|exact Hp]. intro E. subst a. contradiction.
Qed.

End FoldAt.

(** *** What the loops leave in each cell *)

Lemma allocate_other pt h j h' s j' :
  h' <> h \/ j' <> j -> allocate pt h j h' s j' = pt h' s j'.
Proof.
  intro H. unfold allocate.
  repeat match goal with |- context [if ?c then _ else _] => destruct c end;
    repeat rewrite upd3_other by exact H; reflexivity.
Qed.

Lemma step_ptrans_other j st h h' s j' :
  h' <> h \/ j' <> j -> ptrans (step j st h) h' s j' = ptrans st h' s j'.
Proof.
  intro H. unfold step; cbn. destruct (dead h).
  - now apply upd3_other.
  - now apply allocate_other.
Qed.

Lemma allocate_row pt h j s :
  (forall s', pt h s' j = 0) ->
  allocate pt h j h s j = allocate (fun _ _ _ => 0) h j h s j.
Proof.
  intro Hz. unfold allocate. rewrite !upd3_same.
  repeat match goal with |- context [if geb ?a ?b then _ else _] => destruct (geb a b) end;
    rewrite !upd3_row, Hz; reflexivity.
Qed.

Lemma step_ptrans_row j st h s :
  (forall s', ptrans st h s' j = 0) ->
  ptrans (step j st h) h s j = trans_row h j s.
Proof.
  intro Hz. unfold trans_row, step; cbn. destruct (dead h).
  - rewrite !upd3_row, Hz. reflexivity.
  - now apply allocate_row.
Qed.

Lemma fallback_ptrans st : ptrans (fallback st) = ptrans st.
Proof. unfold fallback. now destruct (is_zero _). Qed.

Lemma sweep_ptrans_other j st h s j' :
  j' <> j -> ptrans (sweep j st) h s j' = ptrans st h s j'.
Proof.
  intro H. unfold sweep. revert st.
  induction (seq 0 numhealth) as [|a l IH]; intro st; cbn; [reflexivity|].
  rewrite IH. apply step_ptrans_other. now right.
Qed.

Lemma sweep_ptrans_row j st h s :
  (h < numhealth)%nat ->
  (forall s', ptrans st h s' j = 0) ->
  ptrans (sweep j st) h s j = trans_row h j s.
Proof.
  intros Hh Hz. unfold sweep.
  apply (fold_left_at arrays nat (step j) h
           (fun st => forall s', ptrans st h s' j = 0)
           (fun st => ptrans st h s j = trans_row h j s)).
  - intros st' k Hk Hp s'. rewrite step_ptrans_other; [apply Hp|]. left. congruence.
  - intros st' k Hk Hp. rewrite step_ptrans_other; [exact Hp|]. left. congruence.
  - intros st' Hp. now apply step_ptrans_row.
  - apply seq_NoDup.
  - apply in_seq. lia.
  - exact Hz.
Qed.

(** Every cell of the returned tensor is the cell of [trans_row]. *)
Lemma TP_ptrans h s j :
  (h < numhealth)%nat -> (j < numtrt)%nat ->
  ptrans TP_infinite h s j = trans_row h j s.
Proof.
  intros Hh Hj. unfold TP_infinite.
  apply (fold_left_at arrays nat treatment j
           (fun st => forall s', ptrans st h s' j = 0)
           (fun st => ptrans st h s j = trans_row h j s)).
  - intros st k Hk Hp s'. unfold treatment.
    rewrite fallback_ptrans, sweep_ptrans_other; [apply Hp|congruence].
  - intros st k Hk Hp. unfold treatment.
    rewrite fallback_ptrans, sweep_ptrans_other; [exact Hp|congruence].
  - intros st Hp. unfold treatment. rewrite fallback_ptrans.
    now apply sweep_ptrans_row.
  - apply seq_NoDup.
  - apply in_seq. lia.
  - intro s'. reflexivity.
Qed.

Lemma step_feasible_other j st h h' j' :
  h' <> h \/ j' <> j -> feasible (step j st h) h' j' = feasible st h' j'.
Proof. intro H. unfold step; cbn. now apply upd2_other. Qed.

Lemma step_feasible_same j st h :
  feasible (step j st h) h j = Some (mark_feasible h j).
Proof. unfold step; cbn. apply upd2_same. Qed.

Lemma fallback_feasible_other st h j :
  h <> (numhealth - 1)%nat \/ j <> 0%nat -> feasible (fallback st) h j = feasible st h j.
Proof.
  intro H. unfold fallback. destruct (is_zero _); [|reflexivity].
  cbn. now apply upd2_other.
Qed.

Lemma sweep_feasible_other j st h j' :
  j' <> j -> feasible (sweep j st) h j' = feasible st h j'.
Proof.
  intro H. unfold sweep. revert st.
  induction (seq 0 numhealth) as [|a l IH]; intro st; cbn; [reflexivity|].
  rewrite IH. apply step_feasible_other. now right.
Qed.

Lemma sweep_feasible_same j st h :
  (h < numhealth)%nat -> feasible (sweep j st) h j = Some (mark_feasible h j).
Proof.
  intro Hh. unfold sweep.
  apply (fold_left_at arrays nat (step j) h (fun _ => True)
           (fun st => feasible st h j = Some (mark_feasible h j))).
  - trivial.
  - intros st' k Hk Hp. rewrite step_feasible_other; [exact Hp|]. left. congruence.
  - intros st' _. apply step_feasible_same.
  - apply seq_NoDup.
  - apply in_seq. lia.
  - exact I.
Qed.

(** Away from the one cell the fallback can overwrite, [feasible] holds the
    mark of the bound checks. *)
Lemma TP_feasible h j :
  (h < numhealth)%nat -> (j < numtrt)%nat ->
  h <> (numhealth - 1)%nat \/ j <> 0%nat ->
  feasible TP_infinite h j = Some (mark_feasible h j).
Proof.
  intros Hh Hj Hcell. unfold TP_infinite.
  apply (fold_left_at arrays nat treatment j (fun _ => True)
           (fun st => feasible st h j = Some (mark_feasible h j))).
  - trivial.
  - intros st k Hk Hp. unfold treatment.
    rewrite fallback_feasible_other by exact Hcell.
    rewrite sweep_feasible_other; [exact Hp|congruence].
  - intros st _. unfold treatment.
    rewrite fallback_feasible_other by exact Hcell.
    now apply sweep_feasible_same.
  - apply seq_NoDup.
  - apply in_seq. lia.
  - exact I.
Qed.

(** *** Rows of the tensor *)

Lemma alternate_le h : (alternate h <= 3)%nat.
Proof.
  unfold alternate.
  repeat match goal with |- context [if ?c then _ else _] => destruct c end; lia.
Qed.

Lemma trans_row_dead h j s :
  dead h = true -> trans_row h j s = if (s =? 9)%nat then 1 else 0.
Proof.
  intro Hd. unfold trans_row, step; cbn. rewrite Hd. now rewrite upd3_row.
Qed.

Lemma trans_row_live h j s :
  dead h = false -> trans_row h j s = allocate (fun _ _ _ => 0) h j h s j.
Proof. intro Hd. unfold trans_row, step; cbn. now rewrite Hd. Qed.


Ltac split_exits :=
  repeat match goal with
         | |- context [if geb ?a ?b then _ else _] =>
             let E := fresh "E" in destruct (geb a b) eqn:E;
             [apply geb_ge in E | apply geb_lt in E]
         end.






Lemma py_min_null a x : 0 < a -> x == 0 -> py_min a x == 0.
Proof.
  intros Ha Hx. unfold py_min. destruct (ltb x a) eqn:E; [exact Hx|].
  apply ltb_ge in E. lra.
Qed.

(** C5 (as amended).  With zero period risk, every live row puts
    [min(1, alldeath)] on Dead-NonCVD (state 6), the rest on the state's own
    alternate target, and 0 elsewhere, for any CHD and stroke death rates; it
    collapses to probability 1 on the alternate target when [alldeath] is 0. *)
Theorem zero_risk_rows :
  (10 <= numhealth)%nat ->
  (forall h k, periodrisk h k == 0) ->
  forall h a, (h < numhealth)%nat -> (a < numtrt)%nat -> dead h = false ->
    (forall s, (s < numhealth)%nat ->
       ptrans TP_infinite h s a ==
         if (s =? 6)%nat then py_min 1 alldeath
         else if (s =? alternate h)%nat then 1 - py_min 1 alldeath else 0) /\
    (alldeath == 0 ->
     forall s, (s < numhealth)%nat ->
       ptrans TP_infinite h s a == if (s =? alternate h)%nat then 1 else 0).
Proof.
  intros Hn Hz h a Hh Ha Hlive.
  assert (Hrisk : forall k, risk h k a == 0).
  { intro k. unfold risk, new_risk. cbv zeta. rewrite Hz. lra. }
  assert (H8 : py_min 1 (strokedeath * risk h 1 a) == 0).
  { apply py_min_null; [lra|]. rewrite Hrisk. lra. }
  assert (H7 : py_min 1 (chddeath * risk h 0 a) == 0).
  { apply py_min_null; [lra|]. rewrite Hrisk. lra. }
  assert (H5 : py_min 1 ((1 - strokedeath) * risk h 1 a) == 0).
  { apply py_min_null; [lra|]. rewrite Hrisk. lra. }
  assert (H4 : py_min 1 ((1 - chddeath) * risk h 0 a) == 0).
  { apply py_min_null; [lra|]. rewrite Hrisk. lra. }
  pose proof (py_min_le_l 1 alldeath) as H6.
  pose proof (alternate_le h) as Halt.
  assert (Hrow : forall s,
     ptrans TP_infinite h s a ==
       if (s =? 6)%nat then py_min 1 alldeath
       else if (s =? alternate h)%nat then 1 - py_min 1 alldeath else 0).
  { intro s. rewrite TP_ptrans by assumption.
    rewrite trans_row_live by exact Hlive.
    unfold allocate. cbv zeta. rewrite !upd3_same. split_exits; try lra;
      rewrite !upd3_row;
      repeat match goal with
             | |- context [(s =? ?n)%nat] => destruct (Nat.eqb_spec s n)
             end; try lia; lra. }
  split.
  - intros s _. apply Hrow.
  - intros H0 s _. rewrite Hrow.
    assert (Hm : py_min 1 alldeath == 0) by (apply py_min_null; [lra|exact H0]).
    destruct (Nat.eqb_spec s 6) as [E6|E6]; destruct (Nat.eqb_spec s (alternate h)); try lia; lra.
Qed.

(** *** The fallback *)

Lemma mark_feasible_01 h j : mark_feasible h j = 0 \/ mark_feasible h j = 1.
Proof.
  unfold mark_feasible.
  repeat match goal with |- context [if ?c then _ else _] => destruct c end; auto.
Qed.

Lemma fold_nan_max_nan l : fold_left nan_max l None = None.
Proof. induction l as [|a l IH]; cbn; [reflexivity|exact IH]. Qed.

Lemma fold_nan_max_in l a : In None l -> fold_left nan_max l a = None.
Proof.
  revert a. induction l as [|x l IH]; intros a Hin; [contradiction|].
  cbn. destruct Hin as [E|Hin].
  - subst x. destruct a; cbn; apply fold_nan_max_nan.
  - now apply IH.
Qed.

(** A row that still holds a NaN has NaN as its maximum. *)
Lemma row_max_nan f n j : (j < n)%nat -> f j = None -> row_max f n = None.
Proof.
  intros Hj Hf. unfold row_max. destruct j as [|j].
  - rewrite Hf. apply fold_nan_max_nan.
  - apply fold_nan_max_in. rewrite <- Hf. apply in_map. apply in_seq. lia.
Qed.

Lemma fold_nan_max_marks (f : nat -> option Q) (g : nat -> Q) l a :
  (forall j, In j l -> f j = Some (g j)) ->
  (forall j, g j = 0 \/ g j = 1) -> (a = 0 \/ a = 1) ->
  is_zero (fold_left nan_max (map f l) (Some a)) =
    Qeq_bool a 0 && forallb (fun j => Qeq_bool (g j) 0) l.
Proof.
  intros Hf Hg. revert a Hf. induction l as [|x l IH]; intros a Hf Ha.
  - cbn. now rewrite andb_true_r.
  - cbn [map fold_left forallb]. rewrite (Hf x) by now left. cbn [nan_max].
    rewrite IH.
    + destruct Ha as [-> | ->]; destruct (Hg x) as [-> | ->]; reflexivity.
    + intros j Hj. apply Hf. now right.
    + destruct Ha as [-> | ->]; destruct (Hg x) as [-> | ->]; cbn; auto.
Qed.

(** A fully marked row has maximum 0 exactly when every mark is 0. *)
Lemma row_max_marks (f : nat -> option Q) (g : nat -> Q) n :
  (0 < n)%nat ->
  (forall j, (j < n)%nat -> f j = Some (g j)) ->
  (forall j, g j = 0 \/ g j = 1) ->
  is_zero (row_max f n) = forallb (fun j => Qeq_bool (g j) 0) (seq 0 n).
Proof.
  intros Hn Hf Hg. unfold row_max. rewrite (Hf 0%nat Hn).
  rewrite (fold_nan_max_marks f g).
  - destruct n as [|n]; [lia|]. cbn [seq forallb]. now rewrite Nat.sub_succ, Nat.sub_0_r.
  - intros j Hj. apply Hf. apply in_seq in Hj. lia.
  - exact Hg.
  - apply Hg.
Qed.

(** Whether the bound checks left the last state without a feasible action. *)
Definition last_state_blocked : bool :=
  forallb (fun j => Qeq_bool (mark_feasible (numhealth - 1) j) 0) (seq 0 numtrt).

(** The row of the last state after the first [k] treatments. *)
Definition last_row (k j : nat) : option Q :=
  if (j <? k)%nat
  then Some (if (j =? 0)%nat && (k =? numtrt)%nat && last_state_blocked
             then 1 else mark_feasible (numhealth - 1) j)
  else None.

Lemma last_state_row k :
  (0 < numhealth)%nat -> (k <= numtrt)%nat ->
  forall j, feasible (fold_left treatment (seq 0 k) init) (numhealth - 1) j = last_row k j.
Proof.
  intros Hn. induction k as [|k IH]; intros Hk j.
  - reflexivity.
  - rewrite seq_S, fold_left_app. cbn [fold_left Nat.add].
    set (st := fold_left treatment (seq 0 k) init) in *.
    assert (Hst : forall i, feasible st (numhealth - 1) i = last_row k i) by (apply IH; lia).
    assert (Hsw : forall i, feasible (sweep k st) (numhealth - 1) i =
                            if (i <? S k)%nat then Some (mark_feasible (numhealth - 1) i) else None).
    { intro i. destruct (Nat.eq_dec i k) as [->|Hik].
      - rewrite sweep_feasible_same by lia.
        destruct (Nat.ltb_spec k (S k)); [reflexivity|lia].
      - rewrite sweep_feasible_other by exact Hik. rewrite Hst. unfold last_row.
        destruct (Nat.eqb_spec k numtrt); [lia|]. rewrite andb_false_r. cbn [andb].
        destruct (Nat.ltb_spec i k); destruct (Nat.ltb_spec i (S k)); try lia; reflexivity. }
    unfold treatment, fallback. cbv zeta.
    destruct (Nat.eq_dec (S k) numtrt) as [Hlast|Hmore].
    + rewrite (row_max_marks _ (mark_feasible (numhealth - 1))).
      * fold last_state_blocked. unfold last_row.
        rewrite Hlast, Nat.eqb_refl, andb_true_r.
        destruct last_state_blocked.
        -- cbn [feasible]. destruct (Nat.eq_dec j 0) as [->|Hj0].
           ++ rewrite upd2_same. destruct (Nat.ltb_spec 0 numtrt); [reflexivity|lia].
           ++ rewrite upd2_other by (right; exact Hj0). rewrite Hsw, Hlast.
              destruct (Nat.eqb_spec j 0); [lia|]. reflexivity.
        -- rewrite Hsw, Hlast. now rewrite andb_false_r.
      * lia.
      * intros i Hi. rewrite Hsw. destruct (Nat.ltb_spec i (S k)); [reflexivity|lia].
      * intro i. apply mark_feasible_01.
    + rewrite (row_max_nan _ numtrt (numtrt - 1)).
      * cbn [is_zero]. rewrite Hsw. unfold last_row.
        destruct (Nat.eqb_spec (S k) numtrt); [lia|]. now rewrite andb_false_r.
      * lia.
      * rewrite Hsw. destruct (Nat.ltb_spec (numtrt - 1) (S k)); [lia|reflexivity].
Qed.

(** The fallback reaches the last state, and only when the whole sweep is
    over: its no-treatment cell is forced to 1 exactly when every mark of its
    row is 0. *)
Lemma TP_feasible_last :
  (0 < numhealth)%nat -> (0 < numtrt)%nat ->
  feasible TP_infinite (numhealth - 1) 0 =
    Some (if last_state_blocked then 1 else mark_feasible (numhealth - 1) 0).
Proof.
  intros Hn Ht. unfold TP_infinite. rewrite last_state_row by lia.
  unfold last_row. destruct (Nat.ltb_spec 0 numtrt); [|lia].
  rewrite (Nat.eqb_refl numtrt). reflexivity.
Qed.

(** A state other than the last one that fails every bound check is
    returned with no feasible action. *)
Lemma earlier_state_not_rescued h :
  (h < numhealth)%nat -> h <> (numhealth - 1)%nat ->
  (forall j, (j < numtrt)%nat -> mark_feasible h j = 0) ->
  forall j, (j < numtrt)%nat -> feasible TP_infinite h j = Some 0.
Proof.
  intros Hh Hlast Hm j Hj. rewrite TP_feasible; [|exact Hh|exact Hj|now left].
  now rewrite Hm.
Qed.

(** *** What the bound checks test *)

Lemma mark_no_treatment h :
  mark_feasible h 0 = 0 <-> (sbpmax < pretrtsbp h \/ dbpmax < pretrtdbp h).
Proof.
  unfold mark_feasible. cbn [Nat.eqb].
  destruct (gtb (pretrtsbp h) sbpmax) eqn:E1; destruct (gtb (pretrtdbp h) dbpmax) eqn:E2;
    cbn [orb]; rewrite ?gtb_gt in *; rewrite ?gtb_le in *;
    (split; [intro H; try discriminate; auto | intros [H|H]; try reflexivity; lra]).
Qed.

(** For an action [j > 0] the source tests [pretrtsbp[h] < 0] where the DBP
    side tests the reduction [dbpreduc[h, j] < 0]. *)
Lemma mark_treatment h j :
  j <> 0%nat ->
  (mark_feasible h j = 1 <->
   sbpmin <= pretrtsbp h - sbpreduc h j /\ 0 <= pretrtsbp h /\
   dbpmin <= pretrtdbp h - dbpreduc h j /\ 0 <= dbpreduc h j).
Proof.
  intro Hj. unfold mark_feasible. destruct (Nat.eqb_spec j 0) as [|_]; [contradiction|].
  cbv zeta.
  destruct (ltb (pretrtsbp h - sbpreduc h j) sbpmin) eqn:E1;
    destruct (ltb (pretrtsbp h) 0) eqn:E2;
    destruct (ltb (pretrtdbp h - dbpreduc h j) dbpmin) eqn:E3;
    destruct (ltb (dbpreduc h j) 0) eqn:E4; cbn [orb];
    rewrite ?ltb_lt in *; rewrite ?ltb_ge in *;
    (split; [intro H; try discriminate; repeat split; assumption
            | intros (H1 & H2 & H3 & H4); try reflexivity; lra]).
Qed.

End TP_infinite.

(** *** Concrete runs *)

(** A stand-in for the absent DBP response, for runs whose outcome does not
    depend on it: no drug changes DBP. *)
Definition dbp_unchanged (trt : nat) (pretreatment : Q) (alldrugs : list drugcomb) : Q := 0.

Definition two_drugs : list drugcomb := [DrugStr "NT"; DrugStr "TH"].



(** C5 (as stated) fails: with zero period risk and a non-CVD death rate of
    1/100, the Healthy row under no treatment puts 1/100 on Dead-NonCVD and
    only 99/100 on Healthy. *)
Lemma zero_risk_counterexample :
  let P := ptrans (TP_infinite pow_int_exponent dbp_unchanged (fun _ _ => 0) 10
                     (1#2) (1#2) (1#100) (fun _ => 1#2) (fun _ => 154) (fun _ => 90)
                     120 55 150 90 two_drugs) in
  P 0%nat 6%nat 0%nat == 1#100 /\ P 0%nat 0%nat 0%nat == 99#100 /\
  ~ (forall s, (s < 10)%nat ->
       P 0%nat s 0%nat == if (s =? alternate 0)%nat then 1 else 0).
Proof.
  cbv zeta. split; [reflexivity|]. split; [reflexivity|].
  intro H. specialize (H 0%nat ltac:(repeat constructor)).
  revert H. vm_compute. discriminate.
Qed.

(** C2.  The source runs its fallback inside [for j] but after [for h], so
    it only ever looks at the last state.  With SBP 160 above [sbpmax] = 150
    and DBP 50 below [dbpmin] = 55 in every state, whatever the DBP response
    is, no action passes the bound checks: state 9 gets no-treatment forced
    feasible, state 0 is returned with no feasible action at all. *)
Theorem blocked_state_without_fallback :
  forall (rpow : Q -> Q -> Q) (dbp_reductions : nat -> Q -> list drugcomb -> Q),
  let F := feasible (TP_infinite rpow dbp_reductions (fun _ _ => 1#10) 10
                       (1#2) (1#2) (1#100) (fun _ => 1#2) (fun _ => 160) (fun _ => 50)
                       120 55 150 90 two_drugs) in
  (F 0%nat 0%nat = Some 0 /\ F 0%nat 1%nat = Some 0) /\
  (F 9%nat 0%nat = Some 1 /\ F 9%nat 1%nat = Some 0).
Proof.
  intros rpow dbp_reductions F.
  assert (Hm0 : forall h, mark_feasible dbp_reductions (fun _ => 160) (fun _ => 50)
                           120 55 150 90 two_drugs h 0 = 0) by reflexivity.
  assert (Hm1 : forall h, mark_feasible dbp_reductions (fun _ => 160) (fun _ => 50)
                           120 55 150 90 two_drugs h 1 = 0).
  { intro h. unfold mark_feasible, dbpreduc. cbn [Nat.eqb]. cbv beta zeta.
    set (d := dbp_reductions 1%nat 50 two_drugs).
    destruct (ltb (50 - d) 55) eqn:E1; destruct (ltb d 0) eqn:E2;
      rewrite ?orb_true_r; try reflexivity.
    apply ltb_ge in E1, E2. lra. }
  unfold F. repeat split.
  - rewrite TP_feasible; [now rewrite Hm0| | |]; cbn; auto; lia.
  - rewrite TP_feasible; [now rewrite Hm1| | |]; cbn; auto; lia.
  - change 9%nat with (10 - 1)%nat. rewrite TP_feasible_last by (cbn; lia).
    unfold last_state_blocked. cbn [numtrt two_drugs List.length seq forallb].
    now rewrite Hm0, Hm1.
  - rewrite TP_feasible; [now rewrite Hm1| | |]; cbn; auto; lia.
Qed.

(** C4.  For an action [j > 0] the source tests [pretrtsbp[h] < 0], not
    [sbpreduc[h, j] < 0].  One thiazide dose at SBP 50 has the negative
    reduction -8/5; the post-treatment SBP 51.6 is above [sbpmin] = 40, so
    as soon as the DBP checks pass the action is marked feasible. *)
Theorem negative_reduction_marked_feasible :
  forall (rpow : Q -> Q -> Q) (dbp_reductions : nat -> Q -> list drugcomb -> Q),
  0 <= dbp_reductions 1%nat 90 two_drugs ->
  55 <= 90 - dbp_reductions 1%nat 90 two_drugs ->
  sbp_reductions 1 50 two_drugs == -(8#5) /\
  feasible (TP_infinite rpow dbp_reductions (fun _ _ => 1#10) 10
              (1#2) (1#2) (1#100) (fun _ => 1#2) (fun _ => 50) (fun _ => 90)
              40 55 150 90 two_drugs) 0 1 = Some 1.
Proof.
  intros rpow dbp_reductions Hd Hnew. split; [reflexivity|].
  rewrite TP_feasible; [| cbn; lia | cbn; lia | now right].
  f_equal. apply mark_treatment; [discriminate|].
  unfold sbpreduc, dbpreduc. cbn [Nat.eqb]. cbv beta.
  repeat split; try assumption; discriminate.
Qed.

Lemma negative_reduction_marked_feasible_witness :
  (0 <= dbp_unchanged 1%nat 90 two_drugs /\ 55 <= 90 - dbp_unchanged 1%nat 90 two_drugs) /\
  sbp_reductions 1 50 two_drugs == -(8#5) /\
  feasible (TP_infinite pow_int_exponent dbp_unchanged (fun _ _ => 1#10) 10
              (1#2) (1#2) (1#100) (fun _ => 1#2) (fun _ => 50) (fun _ => 90)
              40 55 150 90 two_drugs) 0 1 = Some 1.
Proof.
  split; [split; discriminate|].
  apply (negative_reduction_marked_feasible pow_int_exponent dbp_unchanged); discriminate.
Defined.

Lemma zero_risk_rows_witness :
  let P := ptrans (TP_infinite pow_int_exponent dbp_unchanged (fun _ _ => 0) 10
                     (1#2) (1#2) 0 (fun _ => 1#2) (fun _ => 154) (fun _ => 90)
                     120 55 150 90 two_drugs) in
  (forall s, (s < 10)%nat ->
     P 4%nat s 1%nat ==
       if (s =? 6)%nat then py_min 1 0
       else if (s =? alternate 4)%nat then 1 - py_min 1 0 else 0) /\
  (0 == 0 ->
   forall s, (s < 10)%nat -> P 4%nat s 1%nat == if (s =? alternate 4)%nat then 1 else 0).
Proof.
  apply (zero_risk_rows pow_int_exponent dbp_unchanged (fun _ _ => 0) 10
           (1#2) (1#2) 0 (fun _ => 1#2) (fun _ => 154) (fun _ => 90)
           120 55 150 90 two_drugs).
  - apply Nat.le_refl.
  - intros h k. reflexivity.
  - repeat constructor.
  - repeat constructor.
  - reflexivity.
Defined.

End TP.

(** ** Policy solver ([policy_evaluation_infinite.py]) *)

Module Solver.

Import Num.

(** Failing calls (a NumPy [ValueError], an unbound local) are [None]. *)
Notation "x <- c ;; k" := (match c with Some x => k | None => None end)
  (at level 61, c at next level, right associativity).

(** [np.max] of a one-dimensional array; it raises on an empty one. *)
Definition np_max (l : list Q) : option Q :=
  match l with
  | [] => None
  | x :: t => Some (fold_left (fun m y => if ltb m y then y else m) t x)
  end.

(** [np.argmax]: the first index that holds the maximum; it raises on an
    empty array. *)
Fixpoint argmax_from (best_i : nat) (best : Q) (i : nat) (l : list Q) : nat :=
  match l with
  | [] => best_i
  | x :: t => if ltb best x then argmax_from i x (S i) t
              else argmax_from best_i best (S i) t
  end.

Definition np_argmax (l : list Q) : option nat :=
  match l with
  | [] => None
  | x :: t => Some (argmax_from 0 x 1 t)
  end.

(** Run the fallible [f] over a list, left to right. *)
Fixpoint for_each {X Y : Type} (f : X -> option Y) (l : list X) : option (list Y) :=
  match l with
  | [] => Some []
  | x :: t => y <- f x ;; ys <- for_each f t ;; Some (y :: ys)
  end.

Section Solver.

(** [P[s, s', a]], with [S = P.shape[0]] states and [A = P.shape[2]] actions;
    policies and value functions are arrays of length [S]. *)
Variable P : nat -> nat -> nat -> Q.
Variables S A : nat.
Variable gamma : Q.
Variable max_iterations : nat.
Variable tolerance : Q.

(** [np.dot(P[s, :, a], V)]. *)
Definition dot (s a : nat) (V : list Q) : Q :=
  Qsum (fun s' => P s s' a * nth s' V 0) S.

(** [np.max(np.abs(V - V_old))]. *)
Definition max_change (V V_old : list Q) : option Q :=
  np_max (map (fun s => Qabs (nth s V 0 - nth s V_old 0)) (seq 0 S)).

(** *** [evaluate_pi_infinite] *)

(** One synchronous sweep [for s in range(S)]: every state reads [V_pi_old]. *)
Definition pi_sweep (pi : list nat) (r : nat -> nat -> Q) (V_pi_old : list Q) : list Q :=
  map (fun s => let a := nth s pi 0%nat in r s a + gamma * dot s a V_pi_old) (seq 0 S).

Fixpoint pi_loop (pi : list nat) (r : nat -> nat -> Q) (n : nat) (V_pi : list Q)
  : option (list Q) :=
  match n with
  | O => Some V_pi
  | Datatypes.S n' =>
      let V_pi_old := V_pi in
      let V_pi := pi_sweep pi r V_pi_old in
      d <- max_change V_pi V_pi_old ;;
      if ltb d tolerance then Some V_pi else pi_loop pi r n' V_pi
  end.

Definition evaluate_pi_infinite (pi : list nat) (r : nat -> nat -> Q) : option (list Q) :=
  pi_loop pi r max_iterations (repeat 0 S).

(** *** [evaluate_events_infinite] *)

Definition events_sweep (pi : list nat) (event_states : nat -> Q) (E_pi_old : list Q)
  : list Q :=
  map (fun s => let a := nth s pi 0%nat in event_states s + gamma * dot s a E_pi_old)
      (seq 0 S).

Fixpoint events_loop (pi : list nat) (event_states : nat -> Q) (n : nat) (E_pi : list Q)
  : option (list Q) :=
  match n with
  | O => Some E_pi
  | Datatypes.S n' =>
      let E_pi_old := E_pi in
      let E_pi := events_sweep pi event_states E_pi_old in
      d <- max_change E_pi E_pi_old ;;
      if ltb d tolerance then Some E_pi else events_loop pi event_states n' E_pi
  end.

Definition evaluate_events_infinite (pi : list nat) (event_states : nat -> Q)
  : option (list Q) :=
  events_loop pi event_states max_iterations (repeat 0 S).

(** *** [policy_improvement_infinite] *)

Variable r : nat -> nat -> Q.

(** [Q_values[a] = r[s, a] + gamma * np.dot(P[s, :, a], V_opt)]. *)
Definition q_value (V_opt : list Q) (s a : nat) : Q := r s a + gamma * dot s a V_opt.

Definition Q_values (V_opt : list Q) (s : nat) : list Q :=
  map (q_value V_opt s) (seq 0 A).

(** [for s in range(S): pi_opt[s] = np.argmax(Q_values)]. *)
Definition improve (V_opt : list Q) : option (list nat) :=
  for_each (fun s => np_argmax (Q_values V_opt s)) (seq 0 S).

(** The policy-iteration loop from a given policy.  [V_opt] is unbound
    until the first pass has run, so a cap of 0 fails at [return]. *)
Fixpoint improvement_loop (n : nat) (pi_opt : list nat) (V_last : option (list Q))
  : option (list nat * list Q) :=
  match n with
  | O => V_opt <- V_last ;; Some (pi_opt, V_opt)
  | Datatypes.S n' =>
      let pi_old := pi_opt in
      V_opt <- evaluate_pi_infinite pi_opt r ;;
      pi_opt <- improve V_opt ;;
      if list_eq_dec Nat.eq_dec pi_opt pi_old then Some (pi_opt, V_opt)
      else improvement_loop n' pi_opt (Some V_opt)
  end.

Definition policy_iteration (pi0 : list nat) : option (list nat * list Q) :=
  improvement_loop max_iterations pi0 None.

(** The initial policy is drawn by [np.random.randint(0, A, S)] from NumPy's
    process-global generator.  [G] is the state of that generator and
    [randint low high size] one draw, which also advances the state; the
    draw raises when [low >= high]. *)
Variable G : Type.
Variable randint : nat -> nat -> nat -> G -> list nat * G.

Definition policy_improvement_infinite (g : G) : option (list nat * list Q) * G :=
  if (A =? 0)%nat then (None, g)
  else let '(pi_opt, g') := randint 0 A S g in (policy_iteration pi_opt, g').

(** *** Expected-event evaluation is policy evaluation *)

Lemma events_sweep_pi_sweep pi (event_states : nat -> Q) V :
  events_sweep pi event_states V = pi_sweep pi (fun s _ => event_states s) V.
Proof. reflexivity. Qed.

Lemma events_loop_pi_loop pi (event_states : nat -> Q) n V :
  events_loop pi event_states n V = pi_loop pi (fun s _ => event_states s) n V.
Proof.
  revert V. induction n as [|n IH]; intro V; [reflexivity|].
  cbn [events_loop pi_loop]. cbv zeta.
  rewrite events_sweep_pi_sweep.
  destruct (max_change _ V) as [d|]; [|reflexivity].
  destruct (ltb d tolerance); [reflexivity|apply IH].
Qed.

(** C8.  For every policy, transition tensor, event-indicator vector,
    discount factor, iteration cap and tolerance, [evaluate_events_infinite]
    returns exactly what [evaluate_pi_infinite] returns on the
    action-independent reward matrix [r_e[s, a] = e[s]]. *)
Theorem events_evaluation_is_policy_evaluation :
  forall (pi : list nat) (e : nat -> Q),
    evaluate_events_infinite pi e = evaluate_pi_infinite pi (fun s _ => e s).
Proof.
  intros pi e. unfold evaluate_events_infinite, evaluate_pi_infinite.
  apply events_loop_pi_loop.
Qed.

(** *** Totality *)

Lemma max_change_defined V V_old :
  (0 < S)%nat -> exists d, max_change V V_old = Some d.
Proof.
  intro HS. unfold max_change. destruct S as [|n]; [lia|].
  cbn [seq map np_max]. eauto.
Qed.

Lemma pi_loop_defined pi r0 n V :
  (0 < S)%nat -> exists V', pi_loop pi r0 n V = Some V'.
Proof.
  intro HS. revert V. induction n as [|n IH]; intro V; cbn [pi_loop]; [eauto|].
  cbv zeta. destruct (max_change_defined (pi_sweep pi r0 V) V HS) as [d ->].
  destruct (ltb d tolerance); [eauto|apply IH].
Qed.

Lemma evaluate_pi_defined pi r0 :
  (0 < S)%nat -> exists V, evaluate_pi_infinite pi r0 = Some V.
Proof. intro HS. now apply pi_loop_defined. Qed.

Lemma for_each_total {X Y} (f : X -> option Y) (g : X -> Y) l :
  (forall x, In x l -> f x = Some (g x)) -> for_each f l = Some (map g l).
Proof.
  induction l as [|x l IH]; intro H; [reflexivity|].
  cbn [for_each map]. rewrite (H x) by now left.
  rewrite IH; [reflexivity|]. intros y Hy. apply H. now right.
Qed.

(** The action [np.argmax] picks in state [s]. *)
Definition greedy (V_opt : list Q) (s : nat) : nat :=
  match Q_values V_opt s with
  | [] => 0%nat
  | x :: t => argmax_from 0 x 1 t
  end.

Lemma improve_defined V_opt :
  (0 < A)%nat -> improve V_opt = Some (map (greedy V_opt) (seq 0 S)).
Proof.
  intro HA. unfold improve. apply for_each_total. intros s _.
  unfold greedy, np_argmax, Q_values. destruct A as [|n]; [lia|]. reflexivity.
Qed.

(** *** [np.argmax] picks the first maximum *)

Lemma skipn_cons_nth {X} (L : list X) i x t d :
  skipn i L = x :: t -> nth i L d = x /\ skipn (Datatypes.S i) L = t /\ (i < List.length L)%nat.
Proof.
  revert L. induction i as [|i IH]; intros L H.
  - destruct L as [|y L]; [discriminate|]. cbn in H. inversion H; subst.
    cbn. repeat split. lia.
  - destruct L as [|y L]; [discriminate|]. cbn [skipn] in H.
    destruct (IH L H) as (H1 & H2 & H3). cbn [nth List.length]. repeat split; auto. lia.
Qed.

Lemma skipn_nil_length {X} (L : list X) i : skipn i L = [] -> (List.length L <= i)%nat.
Proof.
  revert L. induction i as [|i IH]; intros L H.
  - destruct L; [cbn; lia|discriminate].
  - destruct L as [|y L]; [cbn; lia|]. cbn [skipn] in H. apply IH in H. cbn. lia.
Qed.

Lemma argmax_from_first_max (L : list Q) :
  forall l i bi,
    skipn i L = l -> (bi < i)%nat -> (i <= List.length L)%nat ->
    (forall a, (a < i)%nat -> nth a L 0 <= nth bi L 0) ->
    (forall a, (a < bi)%nat -> nth a L 0 < nth bi L 0) ->
    let k := argmax_from bi (nth bi L 0) i l in
    (k < List.length L)%nat /\
    (forall a, (a < List.length L)%nat -> nth a L 0 <= nth k L 0) /\
    (forall a, (a < k)%nat -> nth a L 0 < nth k L 0).
Proof.
  induction l as [|x t IH]; intros i bi Hskip Hbi Hi Hle Hlt; cbn [argmax_from].
  - apply skipn_nil_length in Hskip. cbv zeta. repeat split.
    + lia.
    + intros a Ha. apply Hle. lia.
    + exact Hlt.
  - destruct (skipn_cons_nth L i x t 0 Hskip) as (Hx & Ht & Hlen).
    destruct (ltb (nth bi L 0) x) eqn:E.
    + apply ltb_lt in E. rewrite <- Hx. rewrite <- Hx in E. apply IH.
      * exact Ht.
      * lia.
      * lia.
      * intros a Ha. destruct (Nat.eq_dec a i) as [->|Hai]; [lra|].
        specialize (Hle a ltac:(lia)). lra.
      * intros a Ha. specialize (Hle a Ha). lra.
    + apply ltb_ge in E. apply IH.
      * exact Ht.
      * lia.
      * lia.
      * intros a Ha. destruct (Nat.eq_dec a i) as [->|Hai]; [rewrite Hx; exact E|].
        apply Hle. lia.
      * exact Hlt.
Qed.

Lemma Q_values_nth V_opt s a :
  (a < A)%nat -> nth a (Q_values V_opt s) 0 = q_value V_opt s a.
Proof.
  intro Ha. unfold Q_values.
  rewrite (nth_indep _ 0 (q_value V_opt s 0%nat)) by (rewrite length_map, length_seq; exact Ha).
  rewrite map_nth, seq_nth by exact Ha. reflexivity.
Qed.

Lemma Q_values_length V_opt s : List.length (Q_values V_opt s) = A.
Proof. unfold Q_values. now rewrite length_map, length_seq. Qed.

(** In every state the greedy action is a maximiser of the action value,
    and the lowest-indexed one. *)
Lemma greedy_first_max V_opt s :
  (0 < A)%nat ->
  (greedy V_opt s < A)%nat /\
  (forall a, (a < A)%nat -> q_value V_opt s a <= q_value V_opt s (greedy V_opt s)) /\
  (forall a, (a < greedy V_opt s)%nat -> q_value V_opt s a < q_value V_opt s (greedy V_opt s)).
Proof.
  intro HA. unfold greedy.
  pose proof (Q_values_length V_opt s) as Hlen.
  pose proof (Q_values_nth V_opt s) as Hnth.
  destruct (Q_values V_opt s) as [|x t] eqn:EQ; [cbn in Hlen; lia|].
  destruct (argmax_from_first_max (x :: t) t 1 0) as (H1 & H2 & H3).
  - reflexivity.
  - lia.
  - cbn. lia.
  - intros a Ha. assert (a = 0%nat) as -> by lia. lra.
  - intros a Ha. lia.
  - cbn [nth] in H1, H2, H3. rewrite Hlen in H1, H2.
    set (k := argmax_from 0 x 1 t) in *.
    repeat split.
    + exact H1.
    + intros a Ha. rewrite <- (Hnth a Ha), <- (Hnth k H1). now apply H2.
    + intros a Ha. rewrite <- (Hnth a ltac:(lia)), <- (Hnth k H1). now apply H3.
Qed.

Lemma improve_nth V_opt pi s :
  (0 < A)%nat -> (s < S)%nat -> improve V_opt = Some pi -> nth s pi 0%nat = greedy V_opt s.
Proof.
  intros HA Hs H. rewrite improve_defined in H by exact HA. inversion H; subst.
  rewrite (nth_indep _ 0%nat (greedy V_opt 0%nat)) by (rewrite length_map, length_seq; exact Hs).
  rewrite map_nth, seq_nth by exact Hs. reflexivity.
Qed.

(** *** The policy-iteration loop *)

(** One round: a full evaluation of the policy, then the greedy step. *)
Definition round (pi : list nat) : option (list nat) :=
  V <- evaluate_pi_infinite pi r ;; improve V.

(** The policy after [k] rounds. *)
Fixpoint rounds (k : nat) (pi : list nat) : option (list nat) :=
  match k with
  | O => Some pi
  | Datatypes.S k' => pi' <- round pi ;; rounds k' pi'
  end.

Lemma improvement_loop_rounds n :
  (0 < S)%nat -> (0 < A)%nat -> (0 < n)%nat ->
  forall pi0 V_last,
  exists k pi_prev V pi,
    improvement_loop n pi0 V_last = Some (pi, V) /\
    (k < n)%nat /\
    rounds k pi0 = Some pi_prev /\
    (forall i pi_i, (i < k)%nat -> rounds i pi0 = Some pi_i -> round pi_i <> Some pi_i) /\
    evaluate_pi_infinite pi_prev r = Some V /\
    improve V = Some pi /\
    (pi = pi_prev \/ Datatypes.S k = n).
Proof.
  intros HS HA. induction n as [|n IH]; intros Hn pi0 V_last; [lia|].
  cbn [improvement_loop]. cbv zeta.
  destruct (evaluate_pi_defined pi0 r HS) as [V0 HV0]. rewrite HV0.
  pose proof (improve_defined V0 HA) as Himp. rewrite Himp.
  set (pi1 := map (greedy V0) (seq 0 S)) in *.
  assert (Hround : round pi0 = Some pi1) by (unfold round; now rewrite HV0).
  destruct (list_eq_dec Nat.eq_dec pi1 pi0) as [Heq|Hne].
  - exists 0%nat, pi0, V0, pi1. repeat split; auto; try (intros; lia).
  - destruct n as [|n].
    + exists 0%nat, pi0, V0, pi1. repeat split; auto; try (intros; lia).
    + destruct (IH ltac:(lia) pi1 (Some V0))
        as (k & pi_prev & V & pi & Hres & Hk & Hrounds & Hchg & Hev & Hgr & Hstop).
      exists (Datatypes.S k), pi_prev, V, pi. repeat split; auto; try lia.
      * cbn [rounds]. now rewrite Hround.
      * intros i pi_i Hi Hri. destruct i as [|i].
        -- cbn in Hri. inversion Hri; subst pi_i. rewrite Hround. congruence.
        -- cbn [rounds] in Hri. rewrite Hround in Hri. apply (Hchg i); [lia|exact Hri].
      * destruct Hstop as [Hs|Hs]; [now left|right; lia].
Qed.

(** C6.  From its random initial policy, [policy_improvement_infinite]
    alternates a full policy evaluation with the greedy step
    [pi(s) = argmax_a r(s,a) + gamma * sum_s' P(s,s',a) V(s')], ties going to
    the lowest action index; it stops at the first round that leaves the
    policy unchanged, or at the cap; and at such a fixed point the returned
    value function is the policy's own, under which no state has a strictly
    better action. *)
Theorem policy_iteration_alternates :
  (0 < S)%nat -> (0 < A)%nat -> (0 < max_iterations)%nat ->
  forall g : G,
  let pi0 := fst (randint 0 A S g) in
  exists k pi_prev V pi,
    fst (policy_improvement_infinite g) = Some (pi, V) /\
    (k < max_iterations)%nat /\
    rounds k pi0 = Some pi_prev /\
    (forall i pi_i, (i < k)%nat -> rounds i pi0 = Some pi_i -> round pi_i <> Some pi_i) /\
    evaluate_pi_infinite pi_prev r = Some V /\
    improve V = Some pi /\
    (forall s, (s < S)%nat ->
       (nth s pi 0 < A)%nat /\
       (forall a, (a < A)%nat -> q_value V s a <= q_value V s (nth s pi 0%nat)) /\
       (forall a, (a < nth s pi 0)%nat -> q_value V s a < q_value V s (nth s pi 0%nat))) /\
    (pi = pi_prev \/ Datatypes.S k = max_iterations) /\
    (pi = pi_prev ->
       evaluate_pi_infinite pi r = Some V /\
       forall s a, (s < S)%nat -> (a < A)%nat ->
         q_value V s a <= q_value V s (nth s pi 0%nat)).
Proof.
  intros HS HA Hcap g pi0.
  destruct (improvement_loop_rounds max_iterations HS HA Hcap pi0 None)
    as (k & pi_prev & V & pi & Hres & Hk & Hrounds & Hchg & Hev & Hgr & Hstop).
  assert (Hgreedy : forall s, (s < S)%nat ->
       (nth s pi 0 < A)%nat /\
       (forall a, (a < A)%nat -> q_value V s a <= q_value V s (nth s pi 0%nat)) /\
       (forall a, (a < nth s pi 0)%nat -> q_value V s a < q_value V s (nth s pi 0%nat))).
  { intros s Hs. rewrite (improve_nth V pi s HA Hs Hgr). now apply greedy_first_max. }
  exists k, pi_prev, V, pi.
  split; [|split; [exact Hk|split; [exact Hrounds|split; [exact Hchg|split; [exact Hev|
    split; [exact Hgr|split; [exact Hgreedy|split; [exact Hstop|]]]]]]]].
  - unfold policy_improvement_infinite. destruct (Nat.eqb_spec A 0); [lia|].
    subst pi0. destruct (randint 0 A S g) as [p g']. exact Hres.
  - intro E. split; [now rewrite E|].
    intros s a Hs Ha. now apply Hgreedy.
Qed.


End Solver.

(** *** Concrete runs *)

(** A one-state chain with two actions paying 0 and 1. *)
Definition P_loop (s s' a : nat) : Q := 1.
Definition r_action (s a : nat) : Q := inject_Z (Z.of_nat a).

(** A toy generator: its state is a counter, a draw repeats
    [low + state mod (high - low)] and increments the counter. *)
Definition counter_randint (low high size g : nat) : list nat * nat :=
  (repeat (low + Nat.modulo g (high - low))%nat size, Datatypes.S g).

Lemma policy_iteration_alternates_witness :
  exists k pi_prev V pi,
    fst (policy_improvement_infinite P_loop 1 2 (1#2) 3 (1#1000) r_action nat counter_randint 0%nat)
      = Some (pi, V) /\
    (k < 3)%nat /\
    rounds P_loop 1 2 (1#2) 3 (1#1000) r_action k (fst (counter_randint 0 2 1 0)) = Some pi_prev /\
    (forall i pi_i, (i < k)%nat ->
       rounds P_loop 1 2 (1#2) 3 (1#1000) r_action i (fst (counter_randint 0 2 1 0)) = Some pi_i ->
       round P_loop 1 2 (1#2) 3 (1#1000) r_action pi_i <> Some pi_i) /\
    evaluate_pi_infinite P_loop 1 (1#2) 3 (1#1000) pi_prev r_action = Some V /\
    improve P_loop 1 2 (1#2) r_action V = Some pi /\
    (forall s, (s < 1)%nat ->
       (nth s pi 0 < 2)%nat /\
       (forall a, (a < 2)%nat ->
          q_value P_loop 1 (1#2) r_action V s a <= q_value P_loop 1 (1#2) r_action V s (nth s pi 0%nat)) /\
       (forall a, (a < nth s pi 0)%nat ->
          q_value P_loop 1 (1#2) r_action V s a < q_value P_loop 1 (1#2) r_action V s (nth s pi 0%nat))) /\
    (pi = pi_prev \/ Datatypes.S k = 3%nat) /\
    (pi = pi_prev ->
       evaluate_pi_infinite P_loop 1 (1#2) 3 (1#1000) pi r_action = Some V /\
       forall s a, (s < 1)%nat -> (a < 2)%nat ->
         q_value P_loop 1 (1#2) r_action V s a <= q_value P_loop 1 (1#2) r_action V s (nth s pi 0%nat)).
Proof.
  apply (policy_iteration_alternates P_loop 1 2 (1#2) 3 (1#1000) r_action nat counter_randint);
    repeat constructor.
Defined.

(** The same run, computed: from the drawn policy [0] the first round moves
    to action 1, the second leaves it unchanged and the loop stops. *)
Example policy_improvement_run :
  fst (policy_improvement_infinite P_loop 1 2 (1#2) 3 (1#1000) r_action nat counter_randint 0%nat)
    = Some ([1%nat], [14 # 8]).
Proof. vm_compute. reflexivity. Qed.



End Solver.

(** ** Guideline engines *)

(** What both engines share: the feasibility test of a proposed level. *)
Module Titration.

Import Num DoseResponse.

Section Titration.

(** [dbp_reductions_generic] comes from [dbp_reductions_drugtype.py], which
    is not among the sources: it is a parameter. *)
Variable dbp_reductions_generic : Z -> Q -> option Q.

Variables pretrtsbp pretrtdbp : nat -> Q.
Variables sbpmin dbpmin : Q.

(** Post-treatment SBP and DBP of state [h] under level [trt]. *)
Definition post_sbp (h : nat) (trt : Z) : option Q :=
  osub (Some (pretrtsbp h)) (sbp_reductions_generic trt (pretrtsbp h)).

Definition post_dbp (h : nat) (trt : Z) : option Q :=
  osub (Some (pretrtdbp h)) (dbp_reductions_generic trt (pretrtdbp h)).

(** [(post_trt_sbp < sbpmin or sbpreduc < 0) or (post_trt_dbp < dbpmin or dbpreduc < 0)] *)
Definition infeasible (h : nat) (trt : Z) : bool :=
  (oltb (post_sbp h trt) (Some sbpmin)
   || oltb (sbp_reductions_generic trt (pretrtsbp h)) (Some 0))
  || (oltb (post_dbp h trt) (Some dbpmin)
      || oltb (dbp_reductions_generic trt (pretrtdbp h)) (Some 0)).

End Titration.

(** A stand-in for the absent DBP response, for concrete runs: no level
    changes DBP. *)
Definition dbp_generic_unchanged (trt : Z) (pretreatment : Q) : option Q := Some 0.

End Titration.

(** *** Risk-threshold engine ([risk_based_policy_infinite.py]) *)

Module RiskPolicy.

Import Num DoseResponse Risk Titration.

Section RiskPolicy.

Variable rpow : Q -> Q -> Q.
Variable dbp_reductions_generic : Z -> Q -> option Q.

(** [pretrtrisk[h, k]]; [riskslope] is the row [riskslope.iloc[0, :]]. *)
Variable pretrtrisk : nat -> nat -> Q.
Variable numhealth : nat.
Variables pretrtsbp pretrtdbp : nat -> Q.
Variables targetrisk targetdiff sbpmin dbpmin : Q.
Variable riskslope : nat -> Q.
Variable numtrt : Z.

(** The risk computed before the loop, with no treatment. *)
Definition post_trt_risk (h : nat) : option Q :=
  match sbp_reductions_generic 0 (pretrtsbp h) with
  | Some sbpreduc =>
      Some (new_risk rpow sbpreduc riskslope (pretrtrisk h 0%nat) 0
            + new_risk rpow sbpreduc riskslope (pretrtrisk h 1%nat) 1)
  | None => None
  end.

(** One pass of the body of the monthly loop: the level it leaves in
    [policy[h]] and in [past_trt]. *)
Definition month_step (h : nat) (past_trt : Z) : Z :=
  let new_trt := if (numtrt <? past_trt + 1)%Z then past_trt else (past_trt + 1)%Z in
  if infeasible dbp_reductions_generic pretrtsbp pretrtdbp sbpmin dbpmin h new_trt
  then past_trt else new_trt.

(** [while month <= 12 and post_trt_risk >= targetrisk - targetdiff], with
    [n] months left.  The body never assigns [post_trt_risk]. *)
Fixpoint months (h : nat) (n : nat) (past_trt : Z) (policy_h : option Z) : option Z :=
  match n with
  | O => policy_h
  | S n' =>
      if ogeb (post_trt_risk h) (Some (targetrisk - targetdiff))
      then let policy_h := month_step h past_trt in
           months h n' policy_h (Some policy_h)
      else policy_h
  end.

(** [policy[h]] at the end of the pass for state [h]; it starts as NaN. *)
Definition policy_of_state (h : nat) : option Z :=
  let past_trt := 0%Z in
  if ogeb (post_trt_risk h) (Some (targetrisk - targetdiff))
  then months h 12 past_trt None
  else Some past_trt.

Definition risk_policy_infinite : list (option Z) :=
  map policy_of_state (seq 0 numhealth).

(** The loop as the specification words it, for comparison: each month tests the
    risk under the current treatment. *)
Definition risk_under (h : nat) (trt : Z) : option Q :=
  match sbp_reductions_generic trt (pretrtsbp h) with
  | Some sbpreduc =>
      Some (new_risk rpow sbpreduc riskslope (pretrtrisk h 0%nat) 0
            + new_risk rpow sbpreduc riskslope (pretrtrisk h 1%nat) 1)
  | None => None
  end.

Fixpoint months_reevaluating (h : nat) (n : nat) (past_trt : Z) (policy_h : option Z)
  : option Z :=
  match n with
  | O => policy_h
  | S n' =>
      if ogeb (risk_under h past_trt) (Some (targetrisk - targetdiff))
      then let policy_h := month_step h past_trt in
           months_reevaluating h n' policy_h (Some policy_h)
      else policy_h
  end.

Definition policy_of_state_reevaluating (h : nat) : option Z :=
  if ogeb (risk_under h 0) (Some (targetrisk - targetdiff))
  then months_reevaluating h 12 0 None
  else Some 0%Z.

(** *** The monthly loop *)

Lemma months_run_out h n past_trt policy_h :
  ogeb (post_trt_risk h) (Some (targetrisk - targetdiff)) = true ->
  months h (S n) past_trt policy_h = Some (Nat.iter (S n) (month_step h) past_trt).
Proof.
  intro Hrisk. revert past_trt policy_h.
  induction n as [|n IH]; intros past_trt policy_h.
  - cbn [months]. rewrite Hrisk. reflexivity.
  - change (months h (S (S n)) past_trt policy_h)
      with (if ogeb (post_trt_risk h) (Some (targetrisk - targetdiff))
            then months h (S n) (month_step h past_trt) (Some (month_step h past_trt))
            else policy_h).
    rewrite Hrisk, IH. f_equal. symmetry. apply (Nat.iter_succ_r (S n)).
Qed.

Lemma month_step_cases h past_trt :
  month_step h past_trt = past_trt \/ month_step h past_trt = (past_trt + 1)%Z.
Proof.
  unfold month_step. cbv zeta.
  destruct (numtrt <? past_trt + 1)%Z; destruct (infeasible _ _ _ _ _ _ _); auto.
Qed.

Lemma month_step_capped h past_trt :
  (past_trt <= numtrt)%Z -> (month_step h past_trt <= numtrt)%Z.
Proof.
  intro H. unfold month_step. cbv zeta.
  destruct (Z.ltb_spec numtrt (past_trt + 1));
    destruct (infeasible _ _ _ _ _ _ _); lia.
Qed.

Lemma month_steps_capped h n :
  (0 <= numtrt)%Z -> (0 <= Nat.iter n (month_step h) 0 <= numtrt)%Z.
Proof.
  intro H0. induction n as [|n IH].
  - cbn. lia.
  - change (Nat.iter (S n) (month_step h) 0%Z)
      with (month_step h (Nat.iter n (month_step h) 0%Z)).
    split; [|apply month_step_capped; lia].
    destruct (month_step_cases h (Nat.iter n (month_step h) 0%Z)) as [E|E]; rewrite E; lia.
Qed.

(** A state already below the threshold keeps the no-treatment level. *)
Lemma below_threshold_keeps_no_treatment h :
  ogeb (post_trt_risk h) (Some (targetrisk - targetdiff)) = false ->
  policy_of_state h = Some 0%Z.
Proof. intro H. unfold policy_of_state. cbv zeta. now rewrite H. Qed.

(** C3.  The loop condition reads the risk computed before the loop, which
    the body never updates: for a state at or above the threshold the loop
    runs all 12 months, escalating (by one level, to at most [numtrt],
    keeping the level when the next one is infeasible) whatever the
    treatment reached has done to the risk. *)
Theorem risk_loop_runs_all_months :
  forall (h : nat) (risk0 : Q),
    post_trt_risk h = Some risk0 ->
    targetrisk - targetdiff <= risk0 ->
    policy_of_state h = Some (Nat.iter 12 (month_step h) 0%Z).
Proof.
  intros h risk0 Hr Hge.
  assert (Hc : ogeb (post_trt_risk h) (Some (targetrisk - targetdiff)) = true).
  { rewrite Hr. cbn [ogeb]. now apply geb_ge. }
  unfold policy_of_state. cbv zeta. rewrite Hc. now apply months_run_out.
Qed.

End RiskPolicy.

(** *** Concrete run *)

(** A state with risks 0.04 + 0.04 above the threshold 0.1 - 0.025, SBP 263,
    DBP 90 and risk slopes 1/2.  One standard dose lowers SBP by exactly 20,
    which halves the risk to 0.04, below the threshold; the source still
    escalates to the fifth level, the loop that re-evaluates the risk stops
    at the first. *)
Lemma risk_loop_runs_all_months_witness :
  (post_trt_risk pow_int_exponent (fun _ _ => 4#100) (fun _ => 263) (fun _ => 1#2) 0
     = Some ((1 * (4#100)) + (1 * (4#100))) /\
   (1#10) - (25#1000) <= (1 * (4#100)) + (1 * (4#100))) /\
  policy_of_state pow_int_exponent dbp_generic_unchanged (fun _ _ => 4#100)
    (fun _ => 263) (fun _ => 90) (1#10) (25#1000) 120 55 (fun _ => 1#2) 5 0
  = Some (Nat.iter 12
            (month_step dbp_generic_unchanged (fun _ => 263) (fun _ => 90) 120 55 5 0) 0%Z).
Proof.
  split; [split; [reflexivity|discriminate]|].
  apply (risk_loop_runs_all_months pow_int_exponent dbp_generic_unchanged (fun _ _ => 4#100)
           (fun _ => 263) (fun _ => 90) (1#10) (25#1000) 120 55 (fun _ => 1#2) 5 0%nat
           ((1 * (4#100)) + (1 * (4#100)))).
  - reflexivity.
  - discriminate.
Defined.

Example risk_policy_run :
  policy_of_state pow_int_exponent dbp_generic_unchanged (fun _ _ => 4#100)
    (fun _ => 263) (fun _ => 90) (1#10) (25#1000) 120 55 (fun _ => 1#2) 5 0 = Some 5%Z /\
  risk_under pow_int_exponent (fun _ _ => 4#100) (fun _ => 263) (fun _ => 1#2) 0 1
    = Some ((1#2) * (4#100) + (1#2) * (4#100)) /\
  policy_of_state_reevaluating pow_int_exponent dbp_generic_unchanged (fun _ _ => 4#100)
    (fun _ => 263) (fun _ => 90) (1#10) (25#1000) 120 55 (fun _ => 1#2) 5 0 = Some 1%Z.
Proof. repeat split; vm_compute; reflexivity. Qed.

End RiskPolicy.

(** *** Clinical-guideline engine ([aha_2017_guideline_infinite.py]) *)

Module Guideline.

Import Num DoseResponse Risk Titration.

(** What the monthly loops carry from one pass to the next. *)
Record titration : Type := mk_titration {
  past_trt : Z;
  post_trt_sbp : option Q;
  post_trt_dbp : option Q;
  policy_h : option Z        (* [policy[h]]; NaN until a pass assigns it *)
}.

(** "Not greater than" on returned levels; NaN compares false. *)
Definition level_le (a b : option Z) : Prop :=
  match a, b with
  | Some x, Some y => (x <= y)%Z
  | _, _ => False
  end.

Section Guideline.

Variable rpow : Q -> Q -> Q.
Variable dbp_reductions_generic : Z -> Q -> option Q.

Variable pretrtrisk : nat -> nat -> Q.
Variable numhealth : nat.
Variables pretrtsbp pretrtdbp : nat -> Q.
Variables targetrisk targetsbp targetdbp sbpmin dbpmin : Q.
Variable riskslope : nat -> Q.
Variable numtrt : Z.
Variable healthy : list nat.

Let post_sbp := post_sbp pretrtsbp.
Let post_dbp := post_dbp dbp_reductions_generic pretrtdbp.
Let infeasible := infeasible dbp_reductions_generic pretrtsbp pretrtdbp sbpmin dbpmin.

(** [post_trt_sbp >= targetsbp or post_trt_dbp >= targetdbp] *)
Definition not_on_target (st : titration) : bool :=
  ogeb (post_trt_sbp st) (Some targetsbp) || ogeb (post_trt_dbp st) (Some targetdbp).

(** Body of the first monthly loop. *)
Definition stage1_step (h : nat) (st : titration) : titration :=
  let new_trt :=
    if (numtrt <? past_trt st + 1)%Z then past_trt st else (past_trt st + 1)%Z in
  let policy := if infeasible h new_trt then past_trt st else new_trt in
  {| past_trt := policy;
     post_trt_sbp := post_sbp h new_trt;
     post_trt_dbp := post_dbp h new_trt;
     policy_h := Some policy |}.

(** Body of the second monthly loop: at least two agents, or one fewer than
    proposed when that is what is feasible. *)
Definition stage2_step (h : nat) (st : titration) : titration :=
  let new_trt :=
    if (numtrt <? past_trt st + 1)%Z then past_trt st
    else if (past_trt st <? 2)%Z then 2%Z
    else (past_trt st + 1)%Z in
  if infeasible h new_trt then
    let alt_trt := (new_trt - 1)%Z in
    let policy := if infeasible h alt_trt then past_trt st else alt_trt in
    {| past_trt := policy;
       post_trt_sbp := post_sbp h alt_trt;
       post_trt_dbp := post_dbp h alt_trt;
       policy_h := Some policy |}
  else
    {| past_trt := new_trt;
       post_trt_sbp := post_sbp h new_trt;
       post_trt_dbp := post_dbp h new_trt;
       policy_h := Some new_trt |}.

(** [while month <= 12 and (...not on target...)], with [n] months left. *)
Fixpoint monthly (step : titration -> titration) (n : nat) (st : titration) : titration :=
  match n with
  | O => st
  | S n' => if not_on_target st then monthly step n' (step st) else st
  end.

Definition post_trt_risk (h : nat) : option Q :=
  match sbp_reductions_generic 0 (pretrtsbp h) with
  | Some sbpreduc =>
      Some (new_risk rpow sbpreduc riskslope (pretrtrisk h 0%nat) 0
            + new_risk rpow sbpreduc riskslope (pretrtrisk h 1%nat) 1)
  | None => None
  end.

(** The state of the pass for [h] before the regime is chosen. *)
Definition start (h : nat) : titration :=
  {| past_trt := 0;
     post_trt_sbp := post_sbp h 0;
     post_trt_dbp := post_dbp h 0;
     policy_h := None |}.

(** High risk (or history of ASCVD) with stage 1 hypertension, or stage 2
    hypertension within 20/10 mm Hg of target. *)
Definition stage1 (h : nat) : bool :=
  let st := start h in
  ((ogeb (post_trt_risk h) (Some targetrisk) || negb (existsb (Nat.eqb h) healthy))
   && (ogeb (post_trt_sbp st) (Some 130) || ogeb (post_trt_dbp st) (Some 80)))
  || ((ogeb (post_trt_sbp st) (Some 140) || ogeb (post_trt_dbp st) (Some 90))
      && (oltb (post_trt_sbp st) (Some (targetsbp + 20))
          && oltb (post_trt_dbp st) (Some (targetdbp + 10)))).

(** Stage 2 hypertension, 20/10 mm Hg or more above target. *)
Definition stage2 (h : nat) : bool :=
  let st := start h in
  ogeb (post_trt_sbp st) (Some (targetsbp + 20))
  || ogeb (post_trt_dbp st) (Some (targetdbp + 10)).

(** [policy[h]] at the end of the pass for state [h]. *)
Definition policy_of_state (h : nat) : option Z :=
  if stage1 h then policy_h (monthly (stage1_step h) 12 (start h))
  else if stage2 h then policy_h (monthly (stage2_step h) 12 (start h))
  else Some (past_trt (start h)).

Definition aha_guideline_infinite : list (option Z) :=
  map policy_of_state (seq 0 numhealth).

(** *** The first regime *)

Lemma monthly_on_target step n st : not_on_target st = false -> monthly step n st = st.
Proof. intro H. destruct n; cbn [monthly]; [reflexivity|now rewrite H]. Qed.

(** C10.  [policy] starts as NaN, not as no treatment.  A state that enters
    the first regime with both pressures already below their targets never
    runs the loop body, the only place of that regime that assigns
    [policy[h]]: the entry returned for it is NaN. *)
Theorem stage1_on_target_returns_nan :
  forall h : nat,
    stage1 h = true ->
    not_on_target (start h) = false ->
    policy_of_state h = None.
Proof.
  intros h H1 Hon. unfold policy_of_state. rewrite H1.
  now rewrite monthly_on_target.
Qed.

(** A state outside both regimes keeps the no-treatment level. *)
Lemma on_target_keeps_no_treatment h :
  stage1 h = false -> stage2 h = false -> policy_of_state h = Some 0%Z.
Proof. intros H1 H2. unfold policy_of_state. now rewrite H1, H2. Qed.

End Guideline.

(** *** Concrete runs *)

(** Targets 140/90 and a CHD-history state (state 1, not in [healthy]) with
    SBP 135 and DBP 70: stage 1 pressure, so the first regime is entered,
    and both pressures below target, so its loop never runs. *)
Lemma stage1_on_target_returns_nan_witness :
  (stage1 pow_int_exponent dbp_generic_unchanged (fun _ _ => 1#100)
     (fun _ => 135) (fun _ => 70) (1#10) 140 90 (fun _ => 1#2) [0%nat] 1 = true /\
   not_on_target 140 90
     (start dbp_generic_unchanged (fun _ => 135) (fun _ => 70) 1) = false) /\
  policy_of_state pow_int_exponent dbp_generic_unchanged (fun _ _ => 1#100)
    (fun _ => 135) (fun _ => 70) (1#10) 140 90 120 55 (fun _ => 1#2) 5 [0%nat] 1 = None.
Proof.
  split; [split; reflexivity|].
  apply (stage1_on_target_returns_nan pow_int_exponent dbp_generic_unchanged (fun _ _ => 1#100)
           (fun _ => 135) (fun _ => 70) (1#10) 140 90 120 55 (fun _ => 1#2) 5 [0%nat] 1%nat);
    reflexivity.
Defined.

(** C9.  The same state under targets 140/90, DBP 70, with no DBP reduction
    at level 0: at SBP 129 no regime applies and the level is 0; at SBP 135
    the first regime is entered on target and the entry is NaN, which is not
    a level at or above 0. *)
Theorem pressure_increase_reaches_nan :
  forall (rpow : Q -> Q -> Q) (dbp_reductions_generic : Z -> Q -> option Q)
         (pretrtrisk : nat -> nat -> Q),
    dbp_reductions_generic 0%Z 70 = Some 0 ->
    let level sbp :=
      policy_of_state rpow dbp_reductions_generic pretrtrisk
        (fun _ => sbp) (fun _ => 70) (1#10) 140 90 120 55 (fun _ => 1#2) 5 [0%nat] 1 in
    level 129 = Some 0%Z /\ level 135 = None /\ ~ level_le (level 129) (level 135).
Proof.
  intros rpow dbp pretrtrisk Hd level.
  assert (Hlow : level 129 = Some 0%Z).
  { unfold level. apply on_target_keeps_no_treatment.
    - unfold stage1, start, Titration.post_sbp, Titration.post_dbp. cbv beta zeta.
      cbn [post_trt_sbp post_trt_dbp]. rewrite Hd.
      destruct (ogeb (post_trt_risk rpow pretrtrisk (fun _ => 129) (fun _ => 1#2) 1) _);
        reflexivity.
    - unfold stage2, start, Titration.post_sbp, Titration.post_dbp. cbv beta zeta.
      cbn [post_trt_sbp post_trt_dbp]. rewrite Hd. reflexivity. }
  assert (Hhigh : level 135 = None).
  { unfold level. apply stage1_on_target_returns_nan.
    - unfold stage1, start, Titration.post_sbp, Titration.post_dbp. cbv beta zeta.
      cbn [post_trt_sbp post_trt_dbp]. rewrite Hd.
      destruct (ogeb (post_trt_risk rpow pretrtrisk (fun _ => 135) (fun _ => 1#2) 1) _);
        reflexivity.
    - unfold not_on_target, start, Titration.post_sbp, Titration.post_dbp. cbv beta zeta.
      cbn [post_trt_sbp post_trt_dbp]. rewrite Hd. reflexivity. }
  repeat split; [exact Hlow|exact Hhigh|].
  rewrite Hlow, Hhigh. cbn. tauto.
Qed.

Lemma pressure_increase_reaches_nan_witness :
  dbp_generic_unchanged 0%Z 70 = Some 0 /\
  (policy_of_state pow_int_exponent dbp_generic_unchanged (fun _ _ => 1#100)
     (fun _ => 129) (fun _ => 70) (1#10) 140 90 120 55 (fun _ => 1#2) 5 [0%nat] 1 = Some 0%Z /\
   policy_of_state pow_int_exponent dbp_generic_unchanged (fun _ _ => 1#100)
     (fun _ => 135) (fun _ => 70) (1#10) 140 90 120 55 (fun _ => 1#2) 5 [0%nat] 1 = None /\
   ~ level_le
       (policy_of_state pow_int_exponent dbp_generic_unchanged (fun _ _ => 1#100)
          (fun _ => 129) (fun _ => 70) (1#10) 140 90 120 55 (fun _ => 1#2) 5 [0%nat] 1)
       (policy_of_state pow_int_exponent dbp_generic_unchanged (fun _ _ => 1#100)
          (fun _ => 135) (fun _ => 70) (1#10) 140 90 120 55 (fun _ => 1#2) 5 [0%nat] 1)).
Proof.
  split; [reflexivity|].
  apply (pressure_increase_reaches_nan pow_int_exponent dbp_generic_unchanged (fun _ _ => 1#100)).
  reflexivity.
Defined.

End Guideline.

(** ** More on the transition model *)

Module TPFacts.

Import Num DoseResponse Risk TP.


Section TPFacts.

Variable rpow : Q -> Q -> Q.
Variable dbp_reductions : nat -> Q -> list drugcomb -> Q.
Variable periodrisk : nat -> nat -> Q.
Variable numhealth : nat.
Variables chddeath strokedeath alldeath : Q.
Variable riskslope : nat -> Q.
Variables pretrtsbp pretrtdbp : nat -> Q.
Variables sbpmin dbpmin sbpmax dbpmax : Q.
Variable alldrugs : list drugcomb.

(** The arrays returned for these inputs, the marks of the bound checks and
    the rows written by one pass. *)
Definition returned : arrays :=
  TP_infinite rpow dbp_reductions periodrisk numhealth chddeath strokedeath alldeath
    riskslope pretrtsbp pretrtdbp sbpmin dbpmin sbpmax dbpmax alldrugs.

Definition mark : nat -> nat -> Q :=
  mark_feasible dbp_reductions pretrtsbp pretrtdbp sbpmin dbpmin sbpmax dbpmax alldrugs.

Definition row : nat -> nat -> nat -> Q :=
  trans_row rpow dbp_reductions periodrisk chddeath strokedeath alldeath riskslope
    pretrtsbp pretrtdbp sbpmin dbpmin sbpmax dbpmax alldrugs.

Lemma returned_ptrans h s a :
  (h < numhealth)%nat -> (a < numtrt alldrugs)%nat ->
  ptrans returned h s a = row h a s.
Proof. intros. unfold returned, row. now apply TP_ptrans. Qed.

Lemma returned_feasible h a :
  (h < numhealth)%nat -> (a < numtrt alldrugs)%nat ->
  h <> (numhealth - 1)%nat \/ a <> 0%nat ->
  feasible returned h a = Some (mark h a).
Proof. intros. unfold returned, mark. now apply TP_feasible. Qed.

(** X1.  Dead states are absorbing: for each of the states 6..9 and every
    action, the returned row is 1 on state 9 and 0 elsewhere, whatever the
    numeric inputs are. *)
Theorem dead_rows_absorbing :
  forall h a s,
    (h < numhealth)%nat -> (a < numtrt alldrugs)%nat -> dead h = true ->
    ptrans returned h s a = if (s =? 9)%nat then 1 else 0.
Proof.
  intros h a s Hh Ha Hd. rewrite returned_ptrans by assumption.
  unfold row. now apply trans_row_dead.
Qed.


(** X3.  A live state never moves to Dead-Both (state 9), nor to a stable
    state (0..3) other than its own alternate target. *)
Theorem live_rows_reach_only_events_and_alternate :
  forall h a s,
    (h < numhealth)%nat -> (a < numtrt alldrugs)%nat -> dead h = false ->
    s <> alternate h -> ((s < 4)%nat \/ (9 <= s)%nat) ->
    ptrans returned h s a = 0.
Proof.
  intros h a s Hh Ha Hd Hs Hrange. rewrite returned_ptrans by assumption.
  unfold row. rewrite trans_row_live by exact Hd.
  unfold allocate. cbv zeta. rewrite !upd3_same.
  repeat match goal with |- context [if geb ?x ?y then _ else _] => destruct (geb x y) end;
    rewrite !upd3_row;
    repeat match goal with
           | |- context [(s =? ?n)%nat] => destruct (Nat.eqb_spec s n); [lia|]
           end; reflexivity.
Qed.

Lemma returned_feasible_last :
  (0 < numhealth)%nat -> (0 < numtrt alldrugs)%nat ->
  feasible returned (numhealth - 1) 0 =
    Some (if forallb (fun j => Qeq_bool (mark (numhealth - 1) j) 0) (seq 0 (numtrt alldrugs))
          then 1 else mark (numhealth - 1) 0).
Proof. intros. unfold returned, mark. now apply TP_feasible_last. Qed.

Lemma mark_flag h a : mark h a = 0 \/ mark h a = 1.
Proof. unfold mark. apply mark_feasible_01. Qed.

(** X4.  No NaN is left in the returned feasibility matrix: every cell of
    every state and action holds 0 or 1. *)
Theorem feasible_cells_are_flags :
  forall h a,
    (h < numhealth)%nat -> (a < numtrt alldrugs)%nat ->
    feasible returned h a = Some 0 \/ feasible returned h a = Some 1.
Proof.
  intros h a Hh Ha.
  assert (Hm : Some (mark h a) = Some 0 \/ Some (mark h a) = Some 1)
    by (destruct (mark_flag h a) as [-> | ->]; auto).
  destruct (Nat.eq_dec h (numhealth - 1)) as [Hl|Hl];
    [destruct (Nat.eq_dec a 0) as [Ha0|Ha0]|].
  - subst h a. rewrite returned_feasible_last by lia.
    destruct (forallb _ _); [now right|exact Hm].
  - rewrite returned_feasible by (try assumption; now right). exact Hm.
  - rewrite returned_feasible by (try assumption; now left). exact Hm.
Qed.


End TPFacts.

(** X6.  The tensor does not depend on the DBP inputs or on any pressure
    bound: feasibility never feeds back into the probabilities. *)
Theorem tensor_ignores_bounds :
  forall rpow periodrisk numhealth chddeath strokedeath alldeath riskslope pretrtsbp alldrugs
         dbp_reductions pretrtdbp sbpmin dbpmin sbpmax dbpmax
         dbp_reductions' pretrtdbp' sbpmin' dbpmin' sbpmax' dbpmax' h s a,
    (h < numhealth)%nat -> (a < numtrt alldrugs)%nat ->
    ptrans (returned rpow dbp_reductions periodrisk numhealth chddeath strokedeath alldeath
              riskslope pretrtsbp pretrtdbp sbpmin dbpmin sbpmax dbpmax alldrugs) h s a
    = ptrans (returned rpow dbp_reductions' periodrisk numhealth chddeath strokedeath alldeath
                riskslope pretrtsbp pretrtdbp' sbpmin' dbpmin' sbpmax' dbpmax' alldrugs) h s a.
Proof.
  intros. rewrite !returned_ptrans by assumption. reflexivity.
Qed.

(** *** Concrete runs *)

(** Ten states, no treatment and one thiazide dose, SBP 154 and DBP 90 in
    every state. *)
Definition sample : arrays :=
  returned pow_int_exponent dbp_unchanged (fun _ _ => 1#10) 10 (1#2) (1#2) (1#100)
    (fun _ => 1#2) (fun _ => 154) (fun _ => 90) 120 55 150 90 two_drugs.

Lemma dead_rows_absorbing_witness :
  ptrans sample 7 9 1 = (if (9 =? 9)%nat then 1 else 0).
Proof.
  unfold sample. apply dead_rows_absorbing; [cbn; lia|cbn; lia|reflexivity].
Defined.


Lemma live_rows_reach_only_events_and_alternate_witness : ptrans sample 4 9 1 = 0.
Proof.
  unfold sample. apply live_rows_reach_only_events_and_alternate;
    [cbn; lia|cbn; lia|reflexivity|discriminate|right; lia].
Defined.

Lemma feasible_cells_are_flags_witness :
  feasible sample 9 0 = Some 0 \/ feasible sample 9 0 = Some 1.
Proof.
  unfold sample. apply feasible_cells_are_flags; cbn; lia.
Defined.


Lemma tensor_ignores_bounds_witness :
  ptrans sample 0 8 1
  = ptrans (returned pow_int_exponent (fun _ _ _ => 5) (fun _ _ => 1#10) 10 (1#2) (1#2)
              (1#100) (fun _ => 1#2) (fun _ => 154) (fun _ => 60) 100 70 140 80 two_drugs)
      0 8 1.
Proof.
  unfold sample. apply tensor_ignores_bounds; cbn; lia.
Defined.

End TPFacts.

(** ** More on the dose-response model *)

Module DoseFacts.

Import Num DoseResponse.

(** *** The generic standard dose *)

(** X7.  For the levels 0..5 the generic reduction has a closed form: each
    standard dose moves SBP one tenth of the way towards 63, so after [n]
    doses the post-treatment SBP is [63 + (9/10)^n (pre - 63)]. *)
Theorem generic_reduction_closed_form :
  forall (n : nat) (pretreatment : Q),
    (n <= 5)%nat ->
    exists r, sbp_reductions_generic (Z.of_nat n) pretreatment = Some r /\
              pretreatment - r == 63 + (9#10) ^ (Z.of_nat n) * (pretreatment - 63).
Proof.
  intros n pre Hn.
  destruct n as [|[|[|[|[|[|n]]]]]]; try lia;
    (eexists; split; [reflexivity|]); unfold SBPreduc;
    cbn [Z.of_nat Pos.of_succ_nat Pos.succ Qpower Qpower_positive pow_pos Pos.iter_op];
    ring.
Qed.

(** X8.  Any level outside 0..5, negative ones included, has NaN as its
    reduction. *)
Theorem generic_reduction_nan :
  forall (trt : Z) (pretreatment : Q),
    (trt < 0 \/ 5 < trt)%Z -> sbp_reductions_generic trt pretreatment = None.
Proof.
  intros trt pre H. unfold sbp_reductions_generic. cbv zeta.
  destruct trt as [|p|p]; [lia| |reflexivity].
  destruct p as [[[|p|]|[|p|]|]|[[|p|]|[|p|]|]|]; try reflexivity; lia.
Qed.

(** *** Sequential doses *)

(** Doses compose: [n + m] doses are [m] doses on top of [n]. *)
Lemma doses_app resp n m pre red :
  doses resp (n + m) pre red = doses resp m pre (doses resp n pre red).
Proof.
  revert red. induction n as [|n IH]; intro red; cbn [doses Nat.add]; [reflexivity|].
  apply IH.
Qed.

Lemma doses_compat resp n pre red red' :
  (forall x y, x == y -> resp x == resp y) ->
  red == red' -> doses resp n pre red == doses resp n pre red'.
Proof.
  intros Hresp. revert red red'. induction n as [|n IH]; intros red red' H; cbn [doses].
  - exact H.
  - apply IH. rewrite (Hresp (pre - red) (pre - red')); [|now rewrite H].
    now rewrite H.
Qed.

Lemma SBPreduc_compat x y : x == y -> SBPreduc x == SBPreduc y.
Proof. intro H. unfold SBPreduc. now rewrite H. Qed.

(** X9.  The unrolled chain of [sbp_reductions_generic] is the dosing loop
    of [sbp_reductions] run on the generic response: for a level [n] in 0..5
    it returns what [n] sequential doses of [SBPreduc] give. *)
Theorem generic_reduction_is_sequential_dosing :
  forall (n : nat) (pretreatment : Q),
    (n <= 5)%nat ->
    exists r, sbp_reductions_generic (Z.of_nat n) pretreatment = Some r /\
              r == doses SBPreduc n pretreatment 0.
Proof.
  intros n pre Hn.
  assert (H1 : doses SBPreduc 1 pre 0 == SBPreduc pre).
  { cbn [doses]. rewrite (SBPreduc_compat (pre - 0) pre); lra. }
  destruct n as [|[|[|[|[|[|n]]]]]]; try lia;
    (eexists; split; [reflexivity|]).
  - reflexivity.
  - now rewrite H1.
  - change 2%nat with (1 + 1)%nat. rewrite doses_app.
    rewrite (doses_compat SBPreduc 1 pre _ (SBPreduc pre) SBPreduc_compat H1).
    cbn [doses]. reflexivity.
  - change 3%nat with (1 + 2)%nat. rewrite doses_app.
    rewrite (doses_compat SBPreduc 2 pre _ (SBPreduc pre) SBPreduc_compat H1).
    cbn [doses]. reflexivity.
  - change 4%nat with (1 + 3)%nat. rewrite doses_app.
    rewrite (doses_compat SBPreduc 3 pre _ (SBPreduc pre) SBPreduc_compat H1).
    cbn [doses]. reflexivity.
  - change 5%nat with (1 + 4)%nat. rewrite doses_app.
    rewrite (doses_compat SBPreduc 4 pre _ (SBPreduc pre) SBPreduc_compat H1).
    cbn [doses]. reflexivity.
Qed.

(** X10.  Diminishing returns: for a pre-treatment SBP of at least 63 the
    reductions of the levels 0..5 are non-negative, grow with the level and
    never take SBP below 63. *)
Theorem generic_reduction_monotone :
  forall (n m : nat) (pretreatment : Q),
    (n <= m)%nat -> (m <= 5)%nat -> 63 <= pretreatment ->
    exists r r',
      sbp_reductions_generic (Z.of_nat n) pretreatment = Some r /\
      sbp_reductions_generic (Z.of_nat m) pretreatment = Some r' /\
      0 <= r /\ r <= r' /\ r' <= pretreatment - 63.
Proof.
  intros n m pre Hnm Hm Hpre.
  destruct m as [|[|[|[|[|[|m]]]]]]; try lia;
    destruct n as [|[|[|[|[|[|n]]]]]]; try lia;
    (eexists; eexists; split; [reflexivity|split; [reflexivity|]]);
    unfold SBPreduc; repeat split; lra.
Qed.

(** X11.  For the levels 1..5 the reduction is negative exactly when the
    pre-treatment SBP is below 63: that is when the engines' test
    [sbpreduc < 0] rejects a level. *)
Theorem generic_reduction_negative :
  forall (n : nat) (pretreatment : Q),
    (1 <= n)%nat -> (n <= 5)%nat ->
    exists r, sbp_reductions_generic (Z.of_nat n) pretreatment = Some r /\
              (r < 0 <-> pretreatment < 63).
Proof.
  intros n pre H1 H5.
  destruct n as [|[|[|[|[|[|n]]]]]]; try lia;
    (eexists; split; [reflexivity|]); unfold SBPreduc; split; intro H; lra.
Qed.

(** *** Drug combinations *)

Lemma seq_count_perm x l l' : Permutation l l' -> seq_count x l = seq_count x l'.
Proof.
  unfold seq_count. induction 1 as [|y l l' _ IH|y z l|l l' l'' _ IH1 _ IH2]; cbn [filter].
  - reflexivity.
  - destruct (String.eqb x y); cbn [List.length]; now rewrite IH.
  - destruct (String.eqb x z); destruct (String.eqb x y); reflexivity.
  - now rewrite IH1.
Qed.

(** X12.  The order in which a combination lists its drugs does not matter:
    two sequences that are permutations of each other give the same SBP
    reduction (the doses are always applied thiazides first, then
    beta-blockers, ACE inhibitors, ARBs and calcium-channel blockers). *)
Theorem combination_order_irrelevant :
  forall (alldrugs alldrugs' : list drugcomb) (trt trt' : nat) (l l' : list string)
         (pretreatment : Q),
    drug_at alldrugs trt = DrugSeq l ->
    drug_at alldrugs' trt' = DrugSeq l' ->
    Permutation l l' ->
    sbp_reductions trt pretreatment alldrugs = sbp_reductions trt' pretreatment alldrugs'.
Proof.
  intros alldrugs alldrugs' trt trt' l l' pre H H' Hp.
  unfold sbp_reductions. cbv zeta. rewrite H, H'. cbn [count].
  now rewrite !(seq_count_perm _ l l' Hp).
Qed.

Definition known_class (x : string) : bool :=
  (String.eqb "TH" x || String.eqb "BB" x || String.eqb "ACE" x
   || String.eqb "ARB" x || String.eqb "CCB" x)%bool.

(** X13.  A name that is none of TH, BB, ACE, ARB, CCB is ignored without
    any error: adding it to a combination leaves the reduction unchanged. *)
Theorem unknown_name_ignored :
  forall (x : string) (l : list string) (pretreatment : Q),
    known_class x = false ->
    sbp_reductions 0 pretreatment [DrugSeq (x :: l)]
    = sbp_reductions 0 pretreatment [DrugSeq l].
Proof.
  intros x l pre H. unfold known_class in H.
  repeat (apply orb_false_iff in H; destruct H as [H ?]).
  unfold sbp_reductions, drug_at. cbv zeta. cbn [nth count].
  unfold seq_count. cbn [filter].
  repeat match goal with E : String.eqb _ x = false |- _ => rewrite E; clear E end.
  reflexivity.
Qed.

(** *** Concrete runs *)

Lemma generic_reduction_closed_form_witness :
  exists r, sbp_reductions_generic (Z.of_nat 3) 150 = Some r /\
            150 - r == 63 + (9#10) ^ (Z.of_nat 3) * (150 - 63).
Proof. apply generic_reduction_closed_form. lia. Defined.

Lemma generic_reduction_nan_witness : sbp_reductions_generic 6 150 = None.
Proof. apply generic_reduction_nan. right. lia. Defined.

Lemma generic_reduction_is_sequential_dosing_witness :
  exists r, sbp_reductions_generic (Z.of_nat 4) 150 = Some r /\
            r == doses SBPreduc 4 150 0.
Proof. apply generic_reduction_is_sequential_dosing. lia. Defined.

Lemma generic_reduction_monotone_witness :
  exists r r',
    sbp_reductions_generic (Z.of_nat 2) 150 = Some r /\
    sbp_reductions_generic (Z.of_nat 5) 150 = Some r' /\
    0 <= r /\ r <= r' /\ r' <= 150 - 63.
Proof. apply generic_reduction_monotone; [lia|lia|discriminate]. Defined.

Lemma generic_reduction_negative_witness :
  exists r, sbp_reductions_generic (Z.of_nat 1) 50 = Some r /\ (r < 0 <-> 50 < 63).
Proof. apply generic_reduction_negative; lia. Defined.

Lemma combination_order_irrelevant_witness :
  sbp_reductions 1 150 [DrugStr "NT"; DrugSeq ["ACE"; "TH"; "ACE"]]
  = sbp_reductions 0 150 [DrugSeq ["TH"; "ACE"; "ACE"]].
Proof.
  apply (combination_order_irrelevant _ _ 1 0 ["ACE"; "TH"; "ACE"] ["TH"; "ACE"; "ACE"]);
    [reflexivity|reflexivity|apply perm_swap].
Defined.

Lemma unknown_name_ignored_witness :
  sbp_reductions 0 150 [DrugSeq ["NT"; "TH"]] = sbp_reductions 0 150 [DrugSeq ["TH"]].
Proof. apply unknown_name_ignored. reflexivity. Defined.

End DoseFacts.

(** ** More on the policy solver *)

Module SolverFacts.

Import Num Solver.

Section SolverFacts.

Variable P : nat -> nat -> nat -> Q.
Variables S A : nat.
Variable gamma : Q.
Variable max_iterations : nat.
Variable tolerance : Q.

(** The Bellman sweep of a policy and what [evaluate_pi_infinite] returns. *)
Definition bellman (pi : list nat) (r : nat -> nat -> Q) : list Q -> list Q :=
  pi_sweep P S gamma pi r.

Definition value_of (pi : list nat) (r : nat -> nat -> Q) : option (list Q) :=
  evaluate_pi_infinite P S gamma max_iterations tolerance pi r.

(** The [k]-th iterate from [V0] and the change the [i]-th sweep makes. *)
Definition iterate (pi : list nat) (r : nat -> nat -> Q) (V0 : list Q) (k : nat) : list Q :=
  Nat.iter k (bellman pi r) V0.

Definition change (pi : list nat) (r : nat -> nat -> Q) (V0 : list Q) (i : nat) : option Q :=
  max_change S (iterate pi r V0 (Datatypes.S i)) (iterate pi r V0 i).

Lemma iterate_shift pi r V0 k :
  iterate pi r (bellman pi r V0) k = iterate pi r V0 (Datatypes.S k).
Proof. unfold iterate. symmetry. apply Nat.iter_succ_r. Qed.

Lemma change_shift pi r V0 i :
  change pi r (bellman pi r V0) i = change pi r V0 (Datatypes.S i).
Proof. unfold change. now rewrite !iterate_shift. Qed.

Lemma bellman_length pi r V : List.length (bellman pi r V) = S.
Proof. unfold bellman, pi_sweep. now rewrite length_map, length_seq. Qed.

Lemma pi_loop_length pi r n V0 V :
  pi_loop P S gamma tolerance pi r n V0 = Some V ->
  List.length V0 = S -> List.length V = S.
Proof.
  revert V0. induction n as [|n IH]; intros V0 H HV0; cbn [pi_loop] in H.
  - injection H as <-. exact HV0.
  - cbv zeta in H. destruct (max_change S _ V0) as [d|]; [|discriminate].
    destruct (ltb d tolerance).
    + injection H as <-. apply bellman_length.
    + apply (IH _ H). apply bellman_length.
Qed.

Lemma pi_loop_iterates pi r n :
  forall V0 V,
    pi_loop P S gamma tolerance pi r n V0 = Some V ->
    exists k,
      (k <= n)%nat /\ V = iterate pi r V0 k /\
      (forall i, (Datatypes.S i < k)%nat ->
         exists d, change pi r V0 i = Some d /\ tolerance <= d) /\
      (k = n \/ ((0 < k)%nat /\
                 exists d, change pi r V0 (k - 1) = Some d /\ d < tolerance)).
Proof.
  induction n as [|n IH]; intros V0 V H; cbn [pi_loop] in H.
  - injection H as <-. exists 0%nat.
    split; [lia|]. split; [reflexivity|]. split; [intros i Hi; lia|now left].
  - cbv zeta in H.
    destruct (max_change S (pi_sweep P S gamma pi r V0) V0) as [d|] eqn:Ed; [|discriminate].
    assert (Hc0 : change pi r V0 0 = Some d) by exact Ed.
    destruct (ltb d tolerance) eqn:El.
    + injection H as <-. apply ltb_lt in El. exists 1%nat.
      split; [lia|]. split; [reflexivity|]. split; [intros i Hi; lia|].
      right. split; [lia|]. exists d. auto.
    + apply ltb_ge in El.
      destruct (IH _ _ H) as (k & Hk & HV & Hbefore & Hstop).
      exists (Datatypes.S k). split; [lia|]. split; [|split].
      * rewrite HV. apply iterate_shift.
      * intros i Hi. destruct i as [|i].
        -- exists d. auto.
        -- rewrite <- change_shift. apply Hbefore. lia.
      * destruct Hstop as [->|(Hpos & d' & Hd' & Hlt)]; [now left|].
        right. split; [lia|]. exists d'. split; [|exact Hlt].
        rewrite change_shift in Hd'.
        replace (Datatypes.S k - 1)%nat with (Datatypes.S (k - 1)) by lia. exact Hd'.
Qed.


(** X15.  What [evaluate_pi_infinite] returns is a Bellman iterate of the
    all-zero vector: the first one (within the cap) whose largest change
    from its predecessor is below the tolerance, or the iterate at the cap
    when every earlier change stayed at or above the tolerance. *)
Theorem evaluation_returns_first_settled_iterate :
  forall (pi : list nat) (r : nat -> nat -> Q) (V : list Q),
    value_of pi r = Some V ->
    exists k,
      (k <= max_iterations)%nat /\ V = iterate pi r (repeat 0 S) k /\
      (forall i, (Datatypes.S i < k)%nat ->
         exists d, change pi r (repeat 0 S) i = Some d /\ tolerance <= d) /\
      (k = max_iterations \/
       ((0 < k)%nat /\ exists d, change pi r (repeat 0 S) (k - 1) = Some d /\ d < tolerance)).
Proof.
  intros pi r V H. now apply pi_loop_iterates.
Qed.

(** *** Bounds on the value function *)

Lemma sum_over_weighted (w v : nat -> Q) (B : Q) (l : list nat) :
  0 <= B ->
  (forall i, In i l -> 0 <= w i) ->
  (forall i, In i l -> 0 <= v i <= B) ->
  0 <= sum_over (fun i => w i * v i) l <= B * sum_over w l.
Proof.
  intros HB. induction l as [|a l IH]; intros Hw Hv.
  - change (0 <= 0 <= B * 0). lra.
  - change (0 <= w a * v a + sum_over (fun i => w i * v i) l
                 <= B * (w a + sum_over w l)).
    assert (Ha : 0 <= w a) by (apply Hw; now left).
    assert (Hva : 0 <= v a <= B) by (apply Hv; now left).
    destruct IH as [IH1 IH2].
    { intros i Hi. apply Hw. now right. }
    { intros i Hi. apply Hv. now right. }
    assert (H1 : 0 <= w a * v a) by (apply Qmult_le_0_compat; lra).
    assert (H2 : w a * v a <= w a * B).
    { rewrite !(Qmult_comm (w a)). apply Qmult_le_compat_r; lra. }
    split; lra.
Qed.

Lemma bellman_nth pi r V s :
  (s < S)%nat ->
  nth s (bellman pi r V) 0 = r s (nth s pi 0%nat) + gamma * dot P S s (nth s pi 0%nat) V.
Proof.
  intro Hs. unfold bellman, pi_sweep.
  rewrite (nth_indep _ 0 ((fun s => r s (nth s pi 0%nat)
                              + gamma * dot P S s (nth s pi 0%nat) V) 0%nat))
    by (rewrite length_map, length_seq; exact Hs).
  rewrite (map_nth (fun s => r s (nth s pi 0%nat) + gamma * dot P S s (nth s pi 0%nat) V)).
  now rewrite seq_nth by exact Hs.
Qed.

Section Bounded.

Variables (pi : list nat) (r : nat -> nat -> Q) (R B : Q).
Hypothesis gamma_nonneg : 0 <= gamma.
Hypothesis B_nonneg : 0 <= B.
Hypothesis B_closed : R + gamma * B <= B.
Hypothesis rows :
  forall s, (s < S)%nat ->
    (forall s', (s' < S)%nat -> 0 <= P s s' (nth s pi 0%nat)) /\
    Qsum (fun s' => P s s' (nth s pi 0%nat)) S == 1.
Hypothesis rewards : forall s, (s < S)%nat -> 0 <= r s (nth s pi 0%nat) <= R.

Definition within (V : list Q) : Prop := forall s, (s < S)%nat -> 0 <= nth s V 0 <= B.

Lemma bellman_within V : within V -> within (bellman pi r V).
Proof.
  intros HV s Hs. rewrite bellman_nth by exact Hs.
  destruct (rows s Hs) as [Hp Hsum]. pose proof (rewards s Hs) as Hr.
  assert (Hdot : 0 <= dot P S s (nth s pi 0%nat) V <= B).
  { unfold dot. rewrite Qsum_sum_over.
    destruct (sum_over_weighted (fun s' => P s s' (nth s pi 0%nat)) (fun s' => nth s' V 0)
                B (seq 0 S) B_nonneg) as [H1 H2].
    - intros i Hi. apply Hp. apply in_seq in Hi. lia.
    - intros i Hi. apply HV. apply in_seq in Hi. lia.
    - cbv beta in H1, H2.
      change (sum_over (fun s' => P s s' (nth s pi 0%nat)) (seq 0 S))
        with (Qsum (fun s' => P s s' (nth s pi 0%nat)) S) in H2.
      rewrite Hsum in H2. split; lra. }
  assert (H0 : 0 <= gamma * dot P S s (nth s pi 0%nat) V)
    by (apply Qmult_le_0_compat; lra).
  assert (H1 : gamma * dot P S s (nth s pi 0%nat) V <= gamma * B).
  { rewrite !(Qmult_comm gamma). apply Qmult_le_compat_r; lra. }
  split; lra.
Qed.

Lemma pi_loop_within n V0 V :
  within V0 -> pi_loop P S gamma tolerance pi r n V0 = Some V -> within V.
Proof.
  revert V0. induction n as [|n IH]; intros V0 HV0 H; cbn [pi_loop] in H.
  - injection H as <-. exact HV0.
  - cbv zeta in H. destruct (max_change S _ V0) as [d|]; [|discriminate].
    destruct (ltb d tolerance).
    + injection H as <-. now apply bellman_within.
    + apply (IH _ (bellman_within _ HV0) H).
Qed.

Lemma zeros_within : within (repeat 0 S).
Proof. intros s Hs. rewrite nth_repeat. split; [lra|exact B_nonneg]. Qed.

End Bounded.

(** X16.  Values stay bounded: if the discount factor is in [0, 1), the
    rewards of the policy's actions lie in [0, R] and the rows of its
    actions are probability distributions, every value returned by
    [evaluate_pi_infinite] lies between 0 and [R / (1 - gamma)], however
    early or late the iteration stopped. *)
Theorem values_bounded_by_discounted_reward :
  forall (pi : list nat) (r : nat -> nat -> Q) (R : Q) (V : list Q),
    0 <= gamma -> gamma < 1 -> 0 <= R ->
    (forall s, (s < S)%nat ->
       (forall s', (s' < S)%nat -> 0 <= P s s' (nth s pi 0%nat)) /\
       Qsum (fun s' => P s s' (nth s pi 0%nat)) S == 1) ->
    (forall s, (s < S)%nat -> 0 <= r s (nth s pi 0%nat) <= R) ->
    value_of pi r = Some V ->
    forall s, (s < S)%nat -> 0 <= nth s V 0 <= R / (1 - gamma).
Proof.
  intros pi r R V Hg0 Hg1 HR Hrows Hrew HV.
  assert (Hinv : 0 < / (1 - gamma)) by (apply Qinv_lt_0_compat; lra).
  assert (HB : 0 <= R / (1 - gamma)).
  { unfold Qdiv. apply Qmult_le_0_compat; lra. }
  assert (Hclosed : R + gamma * (R / (1 - gamma)) <= R / (1 - gamma)).
  { assert (E : R + gamma * (R / (1 - gamma)) == R / (1 - gamma)).
    { field. lra. }
    rewrite E. lra. }
  apply (pi_loop_within pi r R (R / (1 - gamma)) Hg0 HB Hclosed Hrows Hrew
           max_iterations (repeat 0 S) V).
  - now apply zeros_within.
  - exact HV.
Qed.

(** *** When policy iteration fails *)

(** X17.  [policy_improvement_infinite] fails exactly when the problem is
    empty: no action (the draw of the initial policy raises), no state (the
    evaluation raises) or an iteration cap of 0 (the value function is never
    assigned).  Otherwise it returns a policy and a value function with one
    entry per state, every action being a valid index. *)
Theorem improvement_fails_only_on_empty_problem :
  forall (r : nat -> nat -> Q) (G : Type) (randint : nat -> nat -> nat -> G -> list nat * G)
         (g : G),
    let result :=
      fst (policy_improvement_infinite P S A gamma max_iterations tolerance r G randint g) in
    (result = None <-> A = 0%nat \/ S = 0%nat \/ max_iterations = 0%nat) /\
    (forall pi V, result = Some (pi, V) ->
       List.length pi = S /\ List.length V = S /\
       forall s, (s < S)%nat -> (nth s pi 0 < A)%nat).
Proof.
  intros r G randint g result.
  assert (Hdef : (0 < A)%nat -> (0 < S)%nat -> (0 < max_iterations)%nat ->
                 exists pi V, result = Some (pi, V) /\
                   List.length pi = S /\ List.length V = S /\
                   forall s, (s < S)%nat -> (nth s pi 0 < A)%nat).
  { intros HA HS Hn. unfold result, policy_improvement_infinite.
    destruct (Nat.eqb_spec A 0); [lia|].
    destruct (randint 0%nat A S g) as [pi0 g']. cbn [fst]. unfold policy_iteration.
    destruct (improvement_loop_rounds P S A gamma max_iterations tolerance r
                max_iterations HS HA Hn pi0 None)
      as (k & pi_prev & V & pi & Hres & _ & _ & _ & Hev & Hgr & _).
    exists pi, V. split; [exact Hres|]. split; [|split].
    - rewrite improve_defined in Hgr by exact HA. injection Hgr as <-.
      now rewrite length_map, length_seq.
    - unfold evaluate_pi_infinite in Hev.
      apply (pi_loop_length _ _ _ _ _ Hev). apply repeat_length.
    - intros s Hs. rewrite (improve_nth P S A gamma r V pi s HA Hs Hgr).
      now apply greedy_first_max. }
  assert (Hfail : A = 0%nat \/ S = 0%nat \/ max_iterations = 0%nat -> result = None).
  { intro H. unfold result, policy_improvement_infinite.
    destruct (Nat.eqb_spec A 0) as [|HA]; [reflexivity|].
    destruct (randint 0%nat A S g) as [pi0 g']. cbn [fst]. unfold policy_iteration.
    destruct max_iterations as [|m] eqn:E; [reflexivity|].
    destruct H as [H|[H|H]]; try lia.
    cbn [improvement_loop]. cbv zeta. unfold evaluate_pi_infinite.
    rewrite H. reflexivity. }
  split; [split; [|exact Hfail]|].
  - intro Hnone.
    destruct (Nat.eq_dec A 0); [now left|].
    destruct (Nat.eq_dec S 0); [right; now left|].
    destruct (Nat.eq_dec max_iterations 0); [right; now right|].
    destruct Hdef as (pi & V & Hres & _); try lia. congruence.
  - intros pi V Hsome.
    destruct (Nat.eq_dec A 0) as [HA|HA];
      [rewrite (Hfail (or_introl HA)) in Hsome; discriminate|].
    destruct (Nat.eq_dec S 0) as [HS|HS];
      [rewrite (Hfail (or_intror (or_introl HS))) in Hsome; discriminate|].
    destruct (Nat.eq_dec max_iterations 0) as [Hn|Hn];
      [rewrite (Hfail (or_intror (or_intror Hn))) in Hsome; discriminate|].
    destruct Hdef as (pi' & V' & Hres & H1 & H2 & H3); try lia.
    rewrite Hres in Hsome. injection Hsome as <- <-. auto.
Qed.

End SolverFacts.

(** *** Concrete runs *)

(** The one-state chain of [Solver.P_loop] under the policy that always
    takes action 1, three sweeps allowed: the changes 1, 1/2 and 1/4 never
    fall below the tolerance, and the third iterate is returned. *)
Lemma evaluation_returns_first_settled_iterate_witness :
  exists k,
    (k <= 3)%nat /\
    [14 # 8] = iterate P_loop 1 (1#2) [1%nat] r_action (repeat 0 1) k /\
    (forall i, (S i < k)%nat ->
       exists d, change P_loop 1 (1#2) [1%nat] r_action (repeat 0 1) i = Some d /\
                 (1#1000) <= d) /\
    (k = 3%nat \/
     ((0 < k)%nat /\
      exists d, change P_loop 1 (1#2) [1%nat] r_action (repeat 0 1) (k - 1) = Some d /\
                d < (1#1000))).
Proof.
  apply (evaluation_returns_first_settled_iterate P_loop 1 (1#2) 3 (1#1000) [1%nat] r_action).
  vm_compute. reflexivity.
Defined.

Lemma values_bounded_by_discounted_reward_witness :
  0 <= nth 0 [14 # 8] 0 <= 1 / (1 - (1#2)).
Proof.
  apply (values_bounded_by_discounted_reward P_loop 1 (1#2) 3 (1#1000) [1%nat] r_action 1
           [14 # 8]).
  - discriminate.
  - reflexivity.
  - discriminate.
  - intros s Hs. split; [intros s' Hs'; discriminate|reflexivity].
  - intros s Hs. destruct s as [|s]; [|lia]. split; discriminate.
  - vm_compute. reflexivity.
  - lia.
Defined.


End SolverFacts.

(** ** More on the guideline engines *)

Module EngineFacts.

Import Num DoseResponse Risk Titration.

(** *** Risk-threshold engine *)

Section RiskFacts.

Variable rpow : Q -> Q -> Q.
Variable dbp_reductions_generic : Z -> Q -> option Q.
Variable pretrtrisk : nat -> nat -> Q.
Variables pretrtsbp pretrtdbp : nat -> Q.
Variables targetrisk targetdiff sbpmin dbpmin : Q.
Variable riskslope : nat -> Q.
Variable numtrt : Z.

(** The level the engine returns for a state, one month of titration, and
    the feasibility test of a level. *)
Definition risk_level (h : nat) : option Z :=
  RiskPolicy.policy_of_state rpow dbp_reductions_generic pretrtrisk pretrtsbp pretrtdbp
    targetrisk targetdiff sbpmin dbpmin riskslope numtrt h.

Definition risk_month (h : nat) : Z -> Z :=
  RiskPolicy.month_step dbp_reductions_generic pretrtsbp pretrtdbp sbpmin dbpmin numtrt h.

Definition rejected (h : nat) (trt : Z) : bool :=
  infeasible dbp_reductions_generic pretrtsbp pretrtdbp sbpmin dbpmin h trt.

Lemma risk_level_cases h :
  risk_level h = Some 0%Z \/ risk_level h = Some (Nat.iter 12 (risk_month h) 0%Z).
Proof.
  unfold risk_level, RiskPolicy.policy_of_state. cbv zeta.
  destruct (ogeb (RiskPolicy.post_trt_risk rpow pretrtrisk pretrtsbp riskslope h)
              (Some (targetrisk - targetdiff))) eqn:E.
  - right. now apply RiskPolicy.months_run_out.
  - now left.
Qed.

(** X18.  The risk-threshold engine never returns NaN and never leaves the
    action range: with a non-negative maximum intensity, every state gets a
    level between 0 and [numtrt]. *)
Theorem risk_level_defined_and_capped :
  forall h : nat,
    (0 <= numtrt)%Z ->
    exists v, risk_level h = Some v /\ (0 <= v <= numtrt)%Z.
Proof.
  intros h Hn. destruct (risk_level_cases h) as [E|E]; rewrite E.
  - exists 0%Z. split; [reflexivity|lia].
  - exists (Nat.iter 12 (risk_month h) 0%Z). split; [reflexivity|].
    unfold risk_month.
    exact (RiskPolicy.month_steps_capped dbp_reductions_generic pretrtsbp pretrtdbp
             sbpmin dbpmin numtrt h 12 Hn).
Qed.

Lemma risk_month_accepts h past :
  (past = 0%Z \/ rejected h past = false) ->
  (risk_month h past = 0%Z \/ rejected h (risk_month h past) = false).
Proof.
  intro H. unfold risk_month, RiskPolicy.month_step. cbv zeta.
  fold (rejected h (if (numtrt <? past + 1)%Z then past else (past + 1)%Z)).
  destruct (rejected h (if (numtrt <? past + 1)%Z then past else (past + 1)%Z)) eqn:E.
  - exact H.
  - right. exact E.
Qed.

Lemma risk_months_accept h n :
  Nat.iter n (risk_month h) 0%Z = 0%Z \/ rejected h (Nat.iter n (risk_month h) 0%Z) = false.
Proof.
  induction n as [|n IH]; [now left|].
  change (Nat.iter (S n) (risk_month h) 0%Z)
    with (risk_month h (Nat.iter n (risk_month h) 0%Z)).
  now apply risk_month_accepts.
Qed.

(** X19.  Whatever level above 0 the risk-threshold engine returns has
    passed the feasibility test: the engine keeps the previous level rather
    than accept a rejected one. *)
Theorem risk_level_passed_the_test :
  forall (h : nat) (v : Z),
    risk_level h = Some v -> v <> 0%Z -> rejected h v = false.
Proof.
  intros h v Hv Hne. pose proof (risk_months_accept h 12) as Hacc.
  destruct (risk_level_cases h) as [E|E]; rewrite E in Hv; clear E.
  - assert (v = 0%Z) by congruence. contradiction.
  - set (w := Nat.iter 12 (risk_month h) 0%Z) in *. clearbody w.
    assert (w = v) by congruence. subst w.
    destruct Hacc as [H|H]; [contradiction|exact H].
Qed.

End RiskFacts.

(** *** Clinical-guideline engine *)

Section GuidelineFacts.

Variable rpow : Q -> Q -> Q.
Variable dbp_reductions_generic : Z -> Q -> option Q.
Variable pretrtrisk : nat -> nat -> Q.
Variables pretrtsbp pretrtdbp : nat -> Q.
Variables targetrisk targetsbp targetdbp sbpmin dbpmin : Q.
Variable riskslope : nat -> Q.
Variable numtrt : Z.
Variable healthy : list nat.

Import Guideline.

(** The level the engine returns for a state, its regimes, its two loop
    bodies and its loop. *)
Definition aha_level (h : nat) : option Z :=
  policy_of_state rpow dbp_reductions_generic pretrtrisk pretrtsbp pretrtdbp
    targetrisk targetsbp targetdbp sbpmin dbpmin riskslope numtrt healthy h.

Definition first_regime (h : nat) : bool :=
  stage1 rpow dbp_reductions_generic pretrtrisk pretrtsbp pretrtdbp
    targetrisk targetsbp targetdbp riskslope healthy h.

Definition second_regime (h : nat) : bool :=
  stage2 dbp_reductions_generic pretrtsbp pretrtdbp targetsbp targetdbp h.

Definition step1 (h : nat) : titration -> titration :=
  stage1_step dbp_reductions_generic pretrtsbp pretrtdbp sbpmin dbpmin numtrt h.

Definition step2 (h : nat) : titration -> titration :=
  stage2_step dbp_reductions_generic pretrtsbp pretrtdbp sbpmin dbpmin numtrt h.

Definition loop : (titration -> titration) -> nat -> titration -> titration :=
  monthly targetsbp targetdbp.

Definition off_target : titration -> bool := not_on_target targetsbp targetdbp.

Definition first_visit (h : nat) : titration :=
  start dbp_reductions_generic pretrtsbp pretrtdbp h.

Definition refused (h : nat) (trt : Z) : bool :=
  infeasible dbp_reductions_generic pretrtsbp pretrtdbp sbpmin dbpmin h trt.

Lemma aha_level_unfold h :
  aha_level h =
    if first_regime h then policy_h (loop (step1 h) 12 (first_visit h))
    else if second_regime h then policy_h (loop (step2 h) 12 (first_visit h))
    else Some (past_trt (first_visit h)).
Proof.
  unfold aha_level, policy_of_state, first_regime, second_regime, loop, step1, step2,
    first_visit.
  reflexivity.
Qed.

Lemma loop_invariant (I : titration -> Prop) step n st :
  (forall st', I st' -> I (step st')) -> I st -> I (loop step n st).
Proof.
  intro Hstep. revert st. induction n as [|n IH]; intros st Hst; cbn; [exact Hst|].
  fold (off_target st). destruct (off_target st); [|exact Hst].
  apply IH. now apply Hstep.
Qed.

Lemma loop_enters step n st :
  off_target st = true -> loop step (S n) st = loop step n (step st).
Proof. intro H. unfold loop. cbn [monthly]. fold (off_target st). now rewrite H. Qed.

Lemma loop_skipped step n st : off_target st = false -> loop step n st = st.
Proof. intro H. unfold loop. now apply monthly_on_target. Qed.

Lemma step1_policy h st : policy_h (step1 h st) = Some (past_trt (step1 h st)).
Proof. reflexivity. Qed.

Lemma step2_policy h st : policy_h (step2 h st) = Some (past_trt (step2 h st)).
Proof.
  unfold step2, stage2_step. cbv zeta.
  destruct (infeasible _ _ _ _ _ _ _); reflexivity.
Qed.

Lemma ogeb_weaken (x : option Q) (t d : Q) :
  0 <= d -> ogeb x (Some (t + d)) = true -> ogeb x (Some t) = true.
Proof.
  intros Hd. destruct x as [x|]; cbn [ogeb]; [|discriminate].
  rewrite !geb_ge. lra.
Qed.

Lemma second_regime_off_target h :
  second_regime h = true -> off_target (first_visit h) = true.
Proof.
  unfold second_regime, stage2, off_target, not_on_target, first_visit. cbv zeta.
  intro H. apply orb_true_iff in H. apply orb_true_iff.
  destruct H as [H|H]; [left|right]; eapply ogeb_weaken; try exact H; lra.
Qed.

(** A loop that is entered leaves a level in [policy[h]]. *)
Lemma entered_loop_assigns step h :
  (forall st, policy_h (step st) = Some (past_trt (step st))) ->
  off_target (first_visit h) = true ->
  exists v, policy_h (loop step 12 (first_visit h)) = Some v.
Proof.
  intros Hstep Hoff. rewrite loop_enters by exact Hoff.
  apply (loop_invariant (fun st => exists v, policy_h st = Some v)).
  - intros st' _. rewrite Hstep. eauto.
  - rewrite Hstep. eauto.
Qed.

(** X20.  The engine returns NaN for a state in exactly one situation: the
    state enters the first regime while both pressures are already below
    their targets.  In every other case the entry is a level. *)
Theorem nan_only_from_first_regime_on_target :
  forall h : nat,
    aha_level h = None <->
    (first_regime h = true /\ off_target (first_visit h) = false).
Proof.
  intro h. rewrite aha_level_unfold. split.
  - intro H. destruct (first_regime h) eqn:E1.
    + split; [reflexivity|]. destruct (off_target (first_visit h)) eqn:Eoff; [|reflexivity].
      destruct (entered_loop_assigns (step1 h) h (step1_policy h) Eoff) as [v Hv].
      congruence.
    + destruct (second_regime h) eqn:E2; [|discriminate].
      destruct (entered_loop_assigns (step2 h) h (step2_policy h)
                  (second_regime_off_target h E2)) as [v Hv].
      congruence.
  - intros [E1 Eoff]. rewrite E1. now rewrite loop_skipped.
Qed.

(** *** Levels the loops can reach *)

Lemma first_visit_past h : past_trt (first_visit h) = 0%Z.
Proof. reflexivity. Qed.

Lemma step1_past h st :
  past_trt (step1 h st) =
    let new_trt := if (numtrt <? past_trt st + 1)%Z then past_trt st
                   else (past_trt st + 1)%Z in
    if refused h new_trt then past_trt st else new_trt.
Proof. reflexivity. Qed.

Lemma step2_past h st :
  past_trt (step2 h st) =
    let new_trt := if (numtrt <? past_trt st + 1)%Z then past_trt st
                   else if (past_trt st <? 2)%Z then 2%Z
                   else (past_trt st + 1)%Z in
    if refused h new_trt
    then (if refused h (new_trt - 1) then past_trt st else (new_trt - 1)%Z)
    else new_trt.
Proof.
  unfold step2, stage2_step, refused. cbv zeta.
  destruct (infeasible _ _ _ _ _ _ _); reflexivity.
Qed.

(** X21.  In the first regime the level never leaves the action range: with
    a non-negative maximum intensity, a level returned for a state of that
    regime lies between 0 and [numtrt]. *)
Theorem first_regime_level_capped :
  forall (h : nat) (v : Z),
    (0 <= numtrt)%Z -> first_regime h = true -> aha_level h = Some v ->
    (0 <= v <= numtrt)%Z.
Proof.
  intros h v Hn H1 Hv. rewrite aha_level_unfold, H1 in Hv.
  assert (Hinv : forall w, policy_h (loop (step1 h) 12 (first_visit h)) = Some w ->
                           (0 <= w <= numtrt)%Z).
  { apply (loop_invariant
             (fun st => (0 <= past_trt st <= numtrt)%Z /\
                        forall w, policy_h st = Some w -> (0 <= w <= numtrt)%Z)).
    - intros st [Hp _].
      assert (Hnew : (0 <= past_trt (step1 h st) <= numtrt)%Z).
      { rewrite step1_past. cbv zeta.
        destruct (Z.ltb_spec numtrt (past_trt st + 1)); destruct (refused h _); lia. }
      split; [exact Hnew|]. intros w Hw. rewrite step1_policy in Hw.
      injection Hw as <-. exact Hnew.
    - split; [rewrite first_visit_past; lia|]. intros w Hw. discriminate. }
  now apply Hinv.
Qed.

(** X22.  The second regime starts at two agents whatever the maximum
    intensity is: as soon as at least one agent is allowed and level 2
    passes the feasibility test, the level returned is at least 2 (so it
    exceeds [numtrt] when [numtrt] is 1). *)
Theorem second_regime_gives_two_agents :
  forall h : nat,
    (1 <= numtrt)%Z -> first_regime h = false -> second_regime h = true ->
    refused h 2 = false ->
    exists v, aha_level h = Some v /\ (2 <= v)%Z.
Proof.
  intros h Hn H1 H2 Hok. rewrite aha_level_unfold, H1, H2.
  rewrite loop_enters by now apply second_regime_off_target.
  assert (Hfirst : past_trt (step2 h (first_visit h)) = 2%Z).
  { rewrite step2_past, first_visit_past. cbv zeta.
    destruct (Z.ltb_spec numtrt (0 + 1)); [lia|]. cbn [Z.ltb Z.compare]. now rewrite Hok. }
  apply (loop_invariant
           (fun st => (2 <= past_trt st)%Z /\ refused h (past_trt st) = false /\
                      exists v, policy_h st = Some v /\ (2 <= v)%Z)).
  - intros st (Hp & Hacc & _).
    assert (Hnew : (2 <= past_trt (step2 h st))%Z /\
                   refused h (past_trt (step2 h st)) = false).
    { rewrite step2_past. cbv zeta.
      destruct (Z.ltb_spec numtrt (past_trt st + 1)).
      - rewrite Hacc. auto.
      - destruct (Z.ltb_spec (past_trt st) 2); [lia|].
        destruct (refused h (past_trt st + 1)) eqn:E.
        + replace (past_trt st + 1 - 1)%Z with (past_trt st) by lia.
          rewrite Hacc. auto.
        + split; [lia|exact E]. }
    destruct Hnew as [Hge Hfeas]. split; [exact Hge|]. split; [exact Hfeas|].
    rewrite step2_policy. eauto.
  - rewrite Hfirst. split; [lia|]. split; [exact Hok|].
    rewrite step2_policy, Hfirst. exists 2%Z. split; [reflexivity|lia].
Qed.

(** X23.  In every regime a level above 0 that the engine returns has
    passed the feasibility test. *)
Theorem aha_level_passed_the_test :
  forall (h : nat) (v : Z),
    aha_level h = Some v -> v <> 0%Z -> refused h v = false.
Proof.
  intros h v Hv Hne. rewrite aha_level_unfold in Hv.
  set (I := fun st => (past_trt st = 0%Z \/ refused h (past_trt st) = false) /\
                      forall w, policy_h st = Some w -> w = past_trt st).
  assert (Hstart : I (first_visit h)).
  { split; [now left|]. intros w Hw. discriminate. }
  assert (Hs1 : forall st, I st -> I (step1 h st)).
  { intros st [Hp _]. split.
    - rewrite step1_past. cbv zeta.
      destruct (refused h (if (numtrt <? past_trt st + 1)%Z then past_trt st
                           else (past_trt st + 1)%Z)) eqn:E; [exact Hp|now right].
    - intros w Hw. rewrite step1_policy in Hw. congruence. }
  assert (Hs2 : forall st, I st -> I (step2 h st)).
  { intros st [Hp _]. split.
    - rewrite step2_past. cbv zeta.
      set (new_trt := if (numtrt <? past_trt st + 1)%Z then past_trt st
                      else if (past_trt st <? 2)%Z then 2%Z else (past_trt st + 1)%Z).
      destruct (refused h new_trt) eqn:E; [|now right].
      destruct (refused h (new_trt - 1)) eqn:E'; [exact Hp|now right].
    - intros w Hw. rewrite step2_policy in Hw. congruence. }
  assert (Hend : forall st, I st -> policy_h st = Some v -> refused h v = false).
  { intros st [Hp Hpol] Hst. rewrite (Hpol v Hst) in *.
    destruct Hp as [Hp|Hp]; [contradiction|exact Hp]. }
  destruct (first_regime h).
  - apply (Hend _ (loop_invariant I (step1 h) 12 _ Hs1 Hstart) Hv).
  - destruct (second_regime h).
    + apply (Hend _ (loop_invariant I (step2 h) 12 _ Hs2 Hstart) Hv).
    + rewrite first_visit_past in Hv. congruence.
Qed.

End GuidelineFacts.

(** *** Concrete runs *)

(** Risk-threshold engine: a state with risks 0.04 + 0.04, SBP 140 and DBP
    90.  The third level would take SBP below 120, so the engine stays at
    level 2. *)
Lemma risk_level_defined_and_capped_witness :
  exists v,
    risk_level pow_int_exponent dbp_generic_unchanged (fun _ _ => 4#100)
      (fun _ => 140) (fun _ => 90) (1#10) (25#1000) 120 55 (fun _ => 1#2) 5 0 = Some v /\
    (0 <= v <= 5)%Z.
Proof. apply risk_level_defined_and_capped. lia. Defined.

Lemma risk_level_passed_the_test_witness :
  rejected dbp_generic_unchanged (fun _ => 140) (fun _ => 90) 120 55 0 2 = false.
Proof.
  apply (risk_level_passed_the_test pow_int_exponent dbp_generic_unchanged (fun _ _ => 4#100)
           (fun _ => 140) (fun _ => 90) (1#10) (25#1000) 120 55 (fun _ => 1#2) 5 0%nat 2%Z).
  - vm_compute. reflexivity.
  - discriminate.
Defined.

(** Guideline engine, targets 130/80.  State 1 has a history of ASCVD, SBP
    135 and DBP 70: first regime, one agent.  State 0 is healthy with SBP 170:
    second regime, which gives two agents although [numtrt] is 1. *)
Lemma first_regime_level_capped_witness : (0 <= 1 <= 5)%Z.
Proof.
  apply (first_regime_level_capped pow_int_exponent dbp_generic_unchanged (fun _ _ => 1#100)
           (fun _ => 135) (fun _ => 70) (1#10) 130 80 120 55 (fun _ => 1#2) 5 [0%nat] 1%nat 1%Z).
  - lia.
  - vm_compute. reflexivity.
  - vm_compute. reflexivity.
Defined.

Lemma second_regime_gives_two_agents_witness :
  exists v,
    aha_level pow_int_exponent dbp_generic_unchanged (fun _ _ => 1#100)
      (fun _ => 170) (fun _ => 70) (1#10) 130 80 120 55 (fun _ => 1#2) 1 [0%nat] 0 = Some v /\
    (2 <= v)%Z.
Proof.
  apply second_regime_gives_two_agents.
  - lia.
  - vm_compute. reflexivity.
  - vm_compute. reflexivity.
  - vm_compute. reflexivity.
Defined.

Lemma aha_level_passed_the_test_witness :
  refused dbp_generic_unchanged (fun _ => 170) (fun _ => 70) 120 55 0 2 = false.
Proof.
  apply (aha_level_passed_the_test pow_int_exponent dbp_generic_unchanged (fun _ _ => 1#100)
           (fun _ => 170) (fun _ => 70) (1#10) 130 80 120 55 (fun _ => 1#2) 1 [0%nat] 0%nat 2%Z).
  - vm_compute. reflexivity.
  - discriminate.
Defined.


End EngineFacts.

(** ** The per-patient driver ([patient_simulation_infinite_no_gurobi.py]) *)

Module Orchestrator.

Import Num.

(** *** Scaling a risk by an odds multiplier *)

(** The three branches that turn a risk from the risk equations into
    [periodrisk[h, k]], for the multiplier [ascvd_hist_sim[h, k]]. *)
Definition scale_risk (mult risk : Q) : Q :=
  if gtb mult 1 then
    let periododds := risk / (1 - risk) in
    let periododds := mult * periododds in
    periododds / (1 + periododds)
  else if Qeq_bool mult 0 then 0
  else risk.

(** *** Rewards *)

(** Python's builtin [max(a, b)]: [b] when [b > a], else [a]. *)
Definition py_max (a b : Q) : Q := if gtb b a then b else a.

(** [r[s, a] = max(0, qol[s] - harmsort[a])]. *)
Definition reward (qol : nat -> Q) (harmsort : nat -> Q) (s a : nat) : Q :=
  py_max 0 (qol s - harmsort a).

(** *** The monotone heuristic *)

(** [h in dead]. *)
Definition is_dead (dead : list nat) (h : nat) : bool := existsb (Nat.eqb h) dead.

(** [d_opt[dead] = 0]. *)
Definition clear_dead (dead : list nat) (d : nat -> nat) : nat -> nat :=
  fun h => if is_dead dead h then 0%nat else d h.

(** [d[h] = v]. *)
Definition upd1 (d : nat -> nat) (h v : nat) : nat -> nat :=
  fun h' => if (h' =? h)%nat then v else d h'.

(** Body of [for h in range(1, numhealth)]. *)
Definition monotone_step (dead : list nat) (d_mopt : nat -> nat) (h : nat) : nat -> nat :=
  if negb (is_dead dead h) then
    if (d_mopt h <? d_mopt (h - 1))%nat then upd1 d_mopt h (d_mopt (h - 1)%nat) else d_mopt
  else d_mopt.

Definition make_monotone (numhealth : nat) (dead : list nat) (d_opt : nat -> nat)
  : nat -> nat :=
  fold_left (monotone_step dead) (seq 1 (numhealth - 1)) d_opt.

(** *** Reconciling a guideline level with the feasible numbers of agents *)

(** [p in feas_meds_list[h]] and Python's [max] of a list, which raises on
    an empty one. *)
Definition in_list (p : Z) (L : list Z) : bool := existsb (Z.eqb p) L.

Definition list_max (L : list Z) : option Z :=
  match L with
  | [] => None
  | x :: t => Some (fold_left Z.max t x)
  end.

(** The repair of one entry of [pi_aha] (and of [pi_risk]) against the list
    [feas_meds_list[h]]; [None] is the [ValueError] of [max] on an empty
    list.  The entry is a level here: a NaN entry is not modelled, because
    what [astype(int)] makes of it depends on the platform. *)
Definition reconcile (L : list Z) (pi_h : Z) : option Z :=
  if negb (in_list pi_h L) then
    let pi_h := if in_list (pi_h + 1) L then (pi_h + 1)%Z else (pi_h - 1)%Z in
    if negb (in_list pi_h L) then list_max L else Some pi_h
  else Some pi_h.

(** *** Facts *)

Lemma odds_nonneg risk : 0 <= risk -> risk < 1 -> 0 <= risk / (1 - risk).
Proof. intros H0 H1. apply Qle_shift_div_l; lra. Qed.

Lemma odds_times risk : risk < 1 -> (risk / (1 - risk)) * (1 - risk) == risk.
Proof. intro H. field. lra. Qed.

(** X24.  Scaling keeps a risk a probability: for a risk in [0, 1) and any
    multiplier the scaled risk is again in [0, 1); a multiplier above 1 never
    lowers the risk, a multiplier of exactly 0 removes it, and every other
    multiplier (1, a fraction, a negative number) leaves it unchanged. *)
Theorem scale_risk_keeps_probability :
  forall mult risk : Q,
    0 <= risk -> risk < 1 ->
    (0 <= scale_risk mult risk /\ scale_risk mult risk < 1) /\
    (1 < mult -> risk <= scale_risk mult risk) /\
    (mult == 0 -> scale_risk mult risk == 0) /\
    (mult <= 1 -> ~ mult == 0 -> scale_risk mult risk == risk).
Proof.
  intros mult risk H0 H1. unfold scale_risk. cbv zeta.
  destruct (gtb mult 1) eqn:Eg; [apply gtb_gt in Eg|apply gtb_le in Eg].
  - pose proof (odds_nonneg risk H0 H1) as Ho.
    pose proof (odds_times risk H1) as Et.
    set (o := risk / (1 - risk)) in *.
    assert (Hm : 0 <= mult * o) by (apply Qmult_le_0_compat; lra).
    assert (Hr : 0 <= (mult - 1) * risk) by (apply Qmult_le_0_compat; lra).
    assert (Ho' : 0 <= o * risk) by (apply Qmult_le_0_compat; lra).
    assert (Hmr : mult * o * (1 - risk) == mult * risk).
    { rewrite <- Qmult_assoc, Et. reflexivity. }
    split; [split|split; [|split]].
    + apply Qle_shift_div_l; lra.
    + apply Qlt_shift_div_r; lra.
    + intros _. apply Qle_shift_div_l; lra.
    + intro Hz. lra.
    + intros Hle _. lra.
  - destruct (Qeq_bool mult 0) eqn:Ez.
    + apply Qeq_bool_iff in Ez.
      split; [split; lra|]. split; [intro; lra|]. split; [intro; lra|].
      intros _ Hne. contradiction.
    + assert (Hne : ~ mult == 0).
      { intro E. apply Qeq_bool_iff in E. congruence. }
      split; [split; lra|]. split; [intro; lra|]. split; [intro E; contradiction|].
      intros. lra.
Qed.

Lemma py_max_nonneg x : 0 <= py_max 0 x.
Proof.
  unfold py_max. destruct (gtb x 0) eqn:E; [apply gtb_gt in E|]; lra.
Qed.

Lemma py_max_le x B : 0 <= B -> x <= B -> py_max 0 x <= B.
Proof. intros HB Hx. unfold py_max. destruct (gtb x 0); lra. Qed.

Lemma reward_range qol harmsort Qmax s a :
  0 <= Qmax -> qol s <= Qmax -> 0 <= harmsort a ->
  0 <= reward qol harmsort s a <= Qmax.
Proof.
  intros HQ Hq Hh. unfold reward. split; [apply py_max_nonneg|].
  apply py_max_le; lra.
Qed.

(** X25.  Rewards are floored at zero and capped by the quality-of-life
    weights, so every policy is worth between 0 and [Qmax / (1 - gamma)] in
    every state: with non-negative treatment disutilities, weights of at
    most [Qmax], a discount factor in [0, 1) and rows that are probability
    distributions, the policy evaluation of the driver's reward matrix
    returns only values in that range. *)
Theorem driver_values_bounded :
  forall (P : nat -> nat -> nat -> Q) (S : nat) (gamma : Q) (max_iterations : nat)
         (tolerance : Q) (pi : list nat) (qol harmsort : nat -> Q) (Qmax : Q) (V : list Q),
    0 <= gamma -> gamma < 1 -> 0 <= Qmax ->
    (forall s, (s < S)%nat -> qol s <= Qmax) ->
    (forall a, 0 <= harmsort a) ->
    (forall s, (s < S)%nat ->
       (forall s', (s' < S)%nat -> 0 <= P s s' (nth s pi 0%nat)) /\
       Qsum (fun s' => P s s' (nth s pi 0%nat)) S == 1) ->
    Solver.evaluate_pi_infinite P S gamma max_iterations tolerance pi (reward qol harmsort)
      = Some V ->
    forall s, (s < S)%nat -> 0 <= nth s V 0 <= Qmax / (1 - gamma).
Proof.
  intros P S gamma max_iterations tolerance pi qol harmsort Qmax V
         Hg0 Hg1 HQ Hqol Hharm Hrows HV.
  assert (Hinv : 0 < / (1 - gamma)) by (apply Qinv_lt_0_compat; lra).
  assert (HB : 0 <= Qmax / (1 - gamma)).
  { unfold Qdiv. apply Qmult_le_0_compat; lra. }
  assert (Hclosed : Qmax + gamma * (Qmax / (1 - gamma)) <= Qmax / (1 - gamma)).
  { assert (E : Qmax + gamma * (Qmax / (1 - gamma)) == Qmax / (1 - gamma)).
    { field. lra. }
    rewrite E. lra. }
  apply (SolverFacts.pi_loop_within P S gamma tolerance pi (reward qol harmsort) Qmax
           (Qmax / (1 - gamma)) Hg0 HB Hclosed Hrows) with (n := max_iterations)
           (V0 := repeat 0 S).
  - intros s Hs. apply reward_range; auto.
  - now apply SolverFacts.zeros_within.
  - exact HV.
Qed.

(** *** The monotone pass *)

Lemma monotone_step_at dead d k h :
  monotone_step dead d k h =
    if ((h =? k)%nat && negb (is_dead dead k) && (d k <? d (k - 1))%nat)%bool
    then d (k - 1)%nat else d h.
Proof.
  unfold monotone_step, upd1.
  destruct (is_dead dead k); cbn [negb andb]; [now rewrite andb_false_r|].
  rewrite andb_true_r.
  destruct (d k <? d (k - 1))%nat; [|now rewrite andb_false_r].
  now rewrite andb_true_r.
Qed.

Section Pass.

Variables (dead : list nat) (d : nat -> nat).

(** The array after the passes for [h = 1 .. n]. *)
Definition after (n : nat) : nat -> nat := fold_left (monotone_step dead) (seq 1 n) d.

Lemma after_succ n h : after (S n) h = monotone_step dead (after n) (S n) h.
Proof. unfold after. now rewrite seq_S, fold_left_app. Qed.

Lemma after_beyond n h : (n < h)%nat -> after n h = d h.
Proof.
  induction n as [|n IH]; intro Hh; [reflexivity|].
  rewrite after_succ, monotone_step_at.
  destruct (Nat.eqb_spec h (S n)); [lia|]. cbn [andb]. apply IH. lia.
Qed.

Lemma after_first n : after n 0 = d 0%nat.
Proof.
  induction n as [|n IH]; [reflexivity|].
  rewrite after_succ, monotone_step_at. cbn [Nat.eqb andb]. exact IH.
Qed.

Lemma after_dead n h : is_dead dead h = true -> after n h = d h.
Proof.
  intro Hd. induction n as [|n IH]; [reflexivity|].
  rewrite after_succ, monotone_step_at.
  destruct (Nat.eqb_spec h (S n)) as [->|]; cbn [andb]; [|exact IH].
  rewrite Hd. cbn [negb andb]. exact IH.
Qed.

Lemma after_raises n h : (d h <= after n h)%nat.
Proof.
  induction n as [|n IH]; [apply Nat.le_refl|].
  rewrite after_succ, monotone_step_at.
  destruct (Nat.eqb_spec h (S n)) as [->|]; cbn [andb]; [|exact IH].
  destruct (is_dead dead (S n)); cbn [negb andb]; [exact IH|].
  destruct (Nat.ltb_spec (after n (S n)) (after n (S n - 1))); [lia|exact IH].
Qed.

Lemma after_bounded n h B :
  (forall i, (i <= h)%nat -> (d i <= B)%nat) -> (after n h <= B)%nat.
Proof.
  revert h. induction n as [|n IH]; intros h Hb; [apply Hb; lia|].
  rewrite after_succ, monotone_step_at.
  destruct (Nat.eqb_spec h (S n)) as [->|]; cbn [andb]; [|now apply IH].
  destruct (is_dead dead (S n)); cbn [negb andb]; [now apply IH|].
  destruct (Nat.ltb_spec (after n (S n)) (after n (S n - 1))); [|now apply IH].
  apply IH. intros i Hi. apply Hb. lia.
Qed.

Lemma after_ordered n h :
  (1 <= h)%nat -> (h <= n)%nat -> is_dead dead h = false ->
  (after n (h - 1) <= after n h)%nat.
Proof.
  induction n as [|n IH]; intros H1 Hn Hlive; [lia|].
  rewrite !after_succ, !monotone_step_at.
  destruct (Nat.eqb_spec (h - 1) (S n)); [lia|]. cbn [andb].
  destruct (Nat.eqb_spec h (S n)) as [->|Hne]; cbn [andb].
  - rewrite Hlive. cbn [negb andb].
    replace (S n - 1)%nat with n by lia.
    destruct (Nat.ltb_spec (after n (S n)) (after n n)); lia.
  - apply IH; [exact H1|lia|exact Hlive].
Qed.

Lemma after_unchanged n :
  (forall h, (1 <= h)%nat -> (h <= n)%nat -> is_dead dead h = false ->
             (d (h - 1) <= d h)%nat) ->
  forall h, after n h = d h.
Proof.
  induction n as [|n IH]; intros Hord h; [reflexivity|].
  assert (IH' : forall h, after n h = d h).
  { apply IH. intros k H1 Hk. apply Hord; [exact H1|lia]. }
  rewrite after_succ, monotone_step_at, !IH'.
  destruct (Nat.eqb_spec h (S n)) as [->|]; cbn [andb]; [|reflexivity].
  destruct (is_dead dead (S n)) eqn:Ed; cbn [negb andb]; [reflexivity|].
  destruct (Nat.ltb_spec (d (S n)) (d (S n - 1))); [|reflexivity].
  specialize (Hord (S n) ltac:(lia) ltac:(lia) Ed). lia.
Qed.

End Pass.

(** X26.  After the monotone pass every live state from 1 on is treated at
    least as intensively as the state just before it. *)
Theorem monotone_pass_orders_live_states :
  forall (numhealth : nat) (dead : list nat) (d_opt : nat -> nat) (h : nat),
    (1 <= h)%nat -> (h < numhealth)%nat -> is_dead dead h = false ->
    (make_monotone numhealth dead d_opt (h - 1) <= make_monotone numhealth dead d_opt h)%nat.
Proof.
  intros numhealth dead d h H1 Hn Hlive. unfold make_monotone.
  apply (after_ordered dead d (numhealth - 1) h); [exact H1|lia|exact Hlive].
Qed.

(** X27.  The monotone pass only ever raises an action, and never above what
    an earlier state already had: dead states and state 0 keep their action,
    every state keeps at least its action, and a bound that holds for the
    actions of the states up to [h] still holds for the new action of [h]. *)
Theorem monotone_pass_only_raises :
  forall (numhealth : nat) (dead : list nat) (d_opt : nat -> nat) (h : nat),
    (d_opt h <= make_monotone numhealth dead d_opt h)%nat /\
    (is_dead dead h = true \/ h = 0%nat \/ (numhealth <= h)%nat ->
     make_monotone numhealth dead d_opt h = d_opt h) /\
    (forall A, (forall i, (i <= h)%nat -> (d_opt i < A)%nat) ->
               (make_monotone numhealth dead d_opt h < A)%nat).
Proof.
  intros numhealth dead d h. unfold make_monotone.
  split; [apply (after_raises dead d)|]. split.
  - intros [Hd|[->|Hh]].
    + now apply (after_dead dead d).
    + apply (after_first dead d).
    + destruct h as [|h]; [apply (after_first dead d)|].
      apply (after_beyond dead d). lia.
  - intros A HA. destruct A as [|A]; [specialize (HA h (Nat.le_refl h)); lia|].
    apply Nat.lt_succ_r. apply (after_bounded dead d).
    intros i Hi. specialize (HA i Hi). lia.
Qed.

(** X28.  A policy that is already ordered over its live states is left
    untouched by the monotone pass. *)
Theorem monotone_pass_keeps_ordered_policy :
  forall (numhealth : nat) (dead : list nat) (d_opt : nat -> nat),
    (forall h, (1 <= h)%nat -> (h < numhealth)%nat -> is_dead dead h = false ->
               (d_opt (h - 1) <= d_opt h)%nat) ->
    forall h, make_monotone numhealth dead d_opt h = d_opt h.
Proof.
  intros numhealth dead d Hord h. unfold make_monotone.
  apply (after_unchanged dead d). intros k H1 Hk Hlive. apply Hord; [exact H1|lia|exact Hlive].
Qed.

(** *** Reconciliation *)

Lemma in_list_In p L : in_list p L = true <-> In p L.
Proof.
  unfold in_list. rewrite existsb_exists. split.
  - intros (x & Hx & E). apply Z.eqb_eq in E. now subst.
  - intro H. exists p. split; [exact H|apply Z.eqb_refl].
Qed.

Lemma fold_max_In (t : list Z) (x : Z) : In (fold_left Z.max t x) (x :: t).
Proof.
  revert x. induction t as [|y t IH]; intro x; cbn [fold_left]; [now left|].
  destruct (IH (Z.max x y)) as [E|Hin].
  - rewrite <- E. destruct (Z.max_spec x y) as [[_ ->]|[_ ->]]; [right; now left|now left].
  - right. now right.
Qed.

Lemma fold_max_ge_init (t : list Z) (x : Z) : (x <= fold_left Z.max t x)%Z.
Proof.
  revert x. induction t as [|z t IH]; intro x; cbn [fold_left]; [lia|].
  specialize (IH (Z.max x z)). lia.
Qed.

Lemma fold_max_ge (t : list Z) (x y : Z) : In y (x :: t) -> (y <= fold_left Z.max t x)%Z.
Proof.
  revert x. induction t as [|z t IH]; intros x Hin; cbn [fold_left].
  - destruct Hin as [->|[]]. lia.
  - destruct Hin as [->|[->|Hin]].
    + pose proof (fold_max_ge_init t (Z.max y z)). lia.
    + pose proof (fold_max_ge_init t (Z.max x y)). lia.
    + apply IH. now right.
Qed.

(** X29.  Reconciliation always lands in the list of feasible numbers of
    agents, and fails only when that list is empty: a level of the list is
    kept, otherwise the level one above is taken if it is in the list, else
    the level one below, else the largest of the list. *)
Theorem reconcile_lands_in_list :
  forall (L : list Z) (pi_h : Z),
    (reconcile L pi_h = None <-> L = []) /\
    (forall v, reconcile L pi_h = Some v -> In v L) /\
    (In pi_h L -> reconcile L pi_h = Some pi_h) /\
    (~ In pi_h L -> In (pi_h + 1)%Z L -> reconcile L pi_h = Some (pi_h + 1)%Z) /\
    (~ In pi_h L -> ~ In (pi_h + 1)%Z L -> In (pi_h - 1)%Z L ->
     reconcile L pi_h = Some (pi_h - 1)%Z) /\
    (~ In pi_h L -> ~ In (pi_h + 1)%Z L -> ~ In (pi_h - 1)%Z L ->
     forall v, reconcile L pi_h = Some v -> forall w, In w L -> (w <= v)%Z).
Proof.
  intros L p. unfold reconcile. cbv zeta.
  destruct (in_list p L) eqn:E0; cbn [negb].
  - apply in_list_In in E0.
    split; [split; [discriminate|intros ->; contradiction]|].
    split; [intros v Hv; injection Hv as <-; exact E0|].
    split; [reflexivity|]. repeat split; intros; contradiction.
  - assert (N0 : ~ In p L) by (rewrite <- in_list_In; congruence).
    destruct (in_list (p + 1) L) eqn:E1.
    + rewrite E1. cbn [negb]. apply in_list_In in E1.
      split; [split; [discriminate|intros ->; contradiction]|].
      split; [intros v Hv; injection Hv as <-; exact E1|].
      split; [intro; contradiction|]. split; [reflexivity|].
      split; intros; contradiction.
    + assert (N1 : ~ In (p + 1)%Z L) by (rewrite <- in_list_In; congruence).
      destruct (in_list (p - 1) L) eqn:E2; cbn [negb].
      * apply in_list_In in E2.
        split; [split; [discriminate|intros ->; contradiction]|].
        split; [intros v Hv; injection Hv as <-; exact E2|].
        split; [intro; contradiction|]. split; [intros; contradiction|].
        split; [reflexivity|]. intros; contradiction.
      * assert (N2 : ~ In (p - 1)%Z L) by (rewrite <- in_list_In; congruence).
        destruct L as [|x t]; cbn [list_max].
        -- split; [split; reflexivity|]. split; [discriminate|].
           split; [intro; contradiction|]. split; [intros; contradiction|].
           split; [intros; contradiction|]. discriminate.
        -- split; [split; discriminate|].
           split; [intros v Hv; injection Hv as <-; apply fold_max_In|].
           split; [intro; contradiction|]. split; [intros; contradiction|].
           split; [intros; contradiction|].
           intros _ _ _ v Hv w Hw. injection Hv as <-. now apply fold_max_ge.
Qed.

(** *** The monotone policy of the driver *)

(** X30.  The monotone policy is built from the optimal one after its dead
    states were set to no treatment: it treats no dead state, and every live
    state at least as intensively as the optimal policy does. *)
Theorem monotone_policy_of_driver :
  forall (numhealth : nat) (dead : list nat) (pi_opt : nat -> nat) (h : nat),
    let d_opt := clear_dead dead pi_opt in
    let d_mopt := make_monotone numhealth dead d_opt in
    (is_dead dead h = true -> d_opt h = 0%nat /\ d_mopt h = 0%nat) /\
    (is_dead dead h = false -> (pi_opt h <= d_mopt h)%nat).
Proof.
  intros numhealth dead pi_opt h d_opt d_mopt. split; intro Hd.
  - assert (E : d_opt h = 0%nat) by (unfold d_opt, clear_dead; now rewrite Hd).
    split; [exact E|]. unfold d_mopt, make_monotone.
    transitivity (d_opt h); [exact (after_dead dead d_opt (numhealth - 1) h Hd)|exact E].
  - assert (E : d_opt h = pi_opt h) by (unfold d_opt, clear_dead; now rewrite Hd).
    rewrite <- E. apply (after_raises dead d_opt).
Qed.

(** *** Concrete runs *)

Lemma scale_risk_keeps_probability_witness :
  (0 <= scale_risk 3 (1#4) /\ scale_risk 3 (1#4) < 1) /\
  (1 < 3 -> (1#4) <= scale_risk 3 (1#4)) /\
  (3 == 0 -> scale_risk 3 (1#4) == 0) /\
  (3 <= 1 -> ~ 3 == 0 -> scale_risk 3 (1#4) == (1#4)).
Proof. apply scale_risk_keeps_probability; [discriminate|reflexivity]. Defined.

Lemma driver_values_bounded_witness :
  0 <= nth 0 [12600 # 8000] 0 <= 1 / (1 - (1#2)).
Proof.
  apply (driver_values_bounded Solver.P_loop 1 (1#2) 3 (1#1000) [1%nat]
           (fun _ => 1) (fun _ => 1#10) 1 [12600 # 8000]).
  - discriminate.
  - reflexivity.
  - discriminate.
  - intros s Hs. discriminate.
  - intros a. discriminate.
  - intros s Hs. split; [intros s' Hs'; discriminate|reflexivity].
  - vm_compute. reflexivity.
  - lia.
Defined.

(** Ten states, the last four dead, and an optimal policy that is not
    ordered. *)
Definition sample_policy (h : nat) : nat := nth h [2; 1; 3; 0; 0; 4; 5; 5; 5; 5]%nat 0%nat.

Lemma monotone_pass_orders_live_states_witness :
  (make_monotone 10 [6; 7; 8; 9]%nat sample_policy (3 - 1)
   <= make_monotone 10 [6; 7; 8; 9]%nat sample_policy 3)%nat.
Proof.
  apply monotone_pass_orders_live_states; [lia|lia|reflexivity].
Defined.

Lemma monotone_pass_keeps_ordered_policy_witness :
  make_monotone 10 [6; 7; 8; 9]%nat (fun h => if (h <? 6)%nat then h else 0%nat) 5 = 5%nat.
Proof.
  apply (monotone_pass_keeps_ordered_policy 10 [6; 7; 8; 9]%nat
           (fun h => if (h <? 6)%nat then h else 0%nat)).
  intros h H1 H2 Hd.
  do 10 (destruct h as [|h]; [try lia; try discriminate; cbn; lia|]). lia.
Defined.

End Orchestrator.
